(** * The ten aggregation queries of [query_it_tools_2_copy.js]

    The script runs ten MongoDB aggregation pipelines over the collections of
    the [energia] database.  Each pipeline is embedded as a function from the
    input collections (lists of records, in collection order) to the list of
    result rows, stage by stage, in the order the script gives them.

    Numbers are modelled as exact rationals ([Qc], rationals in lowest terms),
    so arithmetic is that of the operators without binary rounding.  The
    server computes on doubles: a sum, an average or a quotient that it
    returns can differ from the exact value in the last binary digits, and a
    comparison of two computed values that are equal or nearly so can fall
    the other way.  The statements below are about the exact values.  A field
    that a document may lack is a [field]: absent, explicitly null, or a
    value.  A pipeline that the server aborts (a [$divide] by zero, a failed
    [$toDouble]) returns [Fail]. *)

From Stdlib Require Import List ZArith QArith Qcanon Qcabs Qround.
From Stdlib Require Import String Ascii Bool Lia Lqa Permutation DecimalString.
Import ListNotations.

Open Scope Qc_scope.
Open Scope list_scope.

(** ** Numbers *)

(** Decimal literal [n / d], in lowest terms. *)
Definition dec (n : Z) (d : positive) : Qc := Q2Qc (n # d).

Definition Qc_leb (x y : Qc) : bool := Qle_bool x y.
Definition Qc_ltb (x y : Qc) : bool := negb (Qle_bool y x).
Definition Qc_eqb (x y : Qc) : bool := Qc_eq_bool x y.

Definition zero : Qc := dec 0 1.

(** ** Fields of a document *)

Inductive field (A : Type) : Type :=
| Absent : field A
| Null : field A
| Val : A -> field A.
Arguments Absent {A}.
Arguments Null {A}.
Arguments Val {A} _.

(** ** Failures that abort a pipeline (or the shell statement around it) *)

Inductive error : Type :=
| DivideByZero        (* $divide: can't $divide by zero *)
| ConversionFailure   (* $toDouble / $toInt: failed to parse, or overflow *)
| UndefinedProperty.  (* shell: property read on undefined *)

Inductive result (A : Type) : Type :=
| Ok : A -> result A
| Fail : error -> result A.
Arguments Ok {A} _.
Arguments Fail {A} _.

Definition bind {A B} (m : result A) (k : A -> result B) : result B :=
  match m with
  | Ok a => k a
  | Fail e => Fail e
  end.

Notation "x <- m ;; k" := (bind m (fun x => k))
  (at level 61, m at next level, right associativity).

(** A stage that evaluates a fallible expression on every document aborts at
    the first document on which it fails. *)
Fixpoint map_result {A B} (f : A -> result B) (l : list A) : result (list B) :=
  match l with
  | [] => Ok []
  | a :: l' =>
      b <- f a ;;
      bs <- map_result f l' ;;
      Ok (b :: bs)
  end.

(** ** Expression operators *)

Module Expr.

(** [$divide]: null when an operand is null or missing, an error on a zero
    divisor. *)
Definition divide (a b : field Qc) : result (field Qc) :=
  match a, b with
  | Val x, Val y => if Qc_eqb y zero then Fail DivideByZero else Ok (Val (x / y))
  | _, _ => Ok Null
  end.

Definition multiply (a b : field Qc) : field Qc :=
  match a, b with
  | Val x, Val y => Val (x * y)
  | _, _ => Null
  end.

Definition subtract (a b : field Qc) : field Qc :=
  match a, b with
  | Val x, Val y => Val (x - y)
  | _, _ => Null
  end.

Definition abs (a : field Qc) : field Qc :=
  match a with
  | Val x => Val (Qcabs x)
  | _ => Null
  end.

(** Nearest integer, a tie going to the even neighbour. *)
Definition round_half_even (q : Qc) : Z :=
  let f := Qfloor q in
  let r := q - Q2Qc (inject_Z f) in
  if Qc_ltb r (dec 1 2) then f
  else if Qc_ltb (dec 1 2) r then (f + 1)%Z
  else if Z.even f then f else (f + 1)%Z.

Definition pow10 (n : nat) : positive := Pos.pow 10 (Pos.of_nat n).

Definition scale (n : nat) : Qc :=
  match n with
  | O => dec 1 1
  | _ => dec (Zpos (pow10 n)) 1
  end.

(** [$round: [x, n]] on a number. *)
Definition round_num (x : Qc) (n : nat) : Qc :=
  Q2Qc (inject_Z (round_half_even (x * scale n))) / scale n.

Definition round (a : field Qc) (n : nat) : field Qc :=
  match a with
  | Val x => Val (round_num x n)
  | _ => Null
  end.

(** [$floor] of a number is integral. *)
Definition floor (x : Qc) : Z := Qfloor x.

(** [$toString] of an integral number. *)
Definition toString (z : Z) : string := NilZero.string_of_int (Z.to_int z).

(** [$eq] between two field values. *)
Definition eq (a b : field Qc) : bool :=
  match a, b with
  | Val x, Val y => Qc_eqb x y
  | Null, Null => true
  | Absent, Absent => true
  | _, _ => false
  end.

End Expr.

(** ** Query predicates of [$match] *)

Module Match.

(** [{ f: { $ne: null } }]: the field exists and is not null. *)
Definition ne_null {A} (a : field A) : bool :=
  match a with
  | Val _ => true
  | _ => false
  end.

(** [{ f: { $gt: c } }] for a number [c]: only numbers compare. *)
Definition gt (a : field Qc) (c : Qc) : bool :=
  match a with
  | Val x => Qc_ltb c x
  | _ => false
  end.

(** [{ f: { $gt: c } }] where the bound [c] was read from an earlier result
    and may be null: nothing is greater than null. *)
Definition gt_field (a c : field Qc) : bool :=
  match c with
  | Val y => gt a y
  | _ => false
  end.

End Match.

(** ** Accumulators of [$group] *)

Module Acc.

(** [$sum]: non-numeric values are ignored, the empty sum is 0. *)
Definition sum (l : list (field Qc)) : Qc :=
  fold_left (fun s a => match a with Val x => s + x | _ => s end) l zero.

(** [$avg]: running sum and count of the numeric values; null when there is
    none.  Sum and quotient are exact, where the server rounds each to a
    double. *)
Definition avg_step (st : Qc * Z) (a : field Qc) : Qc * Z :=
  match a with
  | Val x => (fst st + x, (snd st + 1)%Z)
  | _ => st
  end.

Definition avg (l : list (field Qc)) : field Qc :=
  let '(s, n) := fold_left avg_step l (zero, 0%Z) in
  if (n =? 0)%Z then Null else Val (s / Q2Qc (inject_Z n)).

(** [$max]: the largest numeric value; null when there is none. *)
Definition max_step (m : field Qc) (a : field Qc) : field Qc :=
  match a, m with
  | Val x, Val y => if Qc_ltb y x then Val x else Val y
  | Val x, _ => Val x
  | _, _ => m
  end.

Definition max (l : list (field Qc)) : field Qc :=
  fold_left max_step l Null.

End Acc.

(** ** Stages *)

Section Stages.

Context {A : Type}.

(** [$sort]: insertion sort; [leb a b] says [a] may stand before [b].  Ties
    keep the order of the input (the server leaves their order open). *)
Fixpoint sort_insert (leb : A -> A -> bool) (a : A) (l : list A) : list A :=
  match l with
  | [] => [a]
  | b :: l' => if leb a b then a :: b :: l' else b :: sort_insert leb a l'
  end.

Definition sort_by (leb : A -> A -> bool) (l : list A) : list A :=
  fold_right (sort_insert leb) [] l.

(** Every document may stand before its successor. *)
Fixpoint ordered (leb : A -> A -> bool) (l : list A) : Prop :=
  match l with
  | [] => True
  | a :: l' =>
      match l' with [] => True | b :: _ => leb a b = true end /\ ordered leb l'
  end.

(** [$group]: one bucket per distinct key, documents of a bucket in input
    order.  The buckets come in first-seen order (the server leaves their
    order open; a [$sort] follows where the order matters). *)
Context {K : Type}.
Variable keq : K -> K -> bool.

Fixpoint bucket_add (k : K) (a : A) (gs : list (K * list A)) : list (K * list A) :=
  match gs with
  | [] => [(k, [a])]
  | (k', b) :: gs' =>
      if keq k k' then (k', b ++ [a]) :: gs'
      else (k', b) :: bucket_add k a gs'
  end.

Definition group_by (key : A -> K) (l : list A) : list (K * list A) :=
  fold_left (fun gs a => bucket_add (key a) a gs) l [].

(** The documents collected under key [k]. *)
Definition bucket (k : K) (gs : list (K * list A)) : list A :=
  match find (fun g => keq k (fst g)) gs with
  | Some g => snd g
  | None => []
  end.

End Stages.

(** Ordering of [$sort] on a numeric field that may be null: null and missing
    sort below every number.  [sort_desc] is [{ $sort: { key: -1 } }]. *)
Definition field_leb (a b : field Qc) : bool :=
  match a, b with
  | Val x, Val y => Qc_leb x y
  | Val _, _ => false
  | _, _ => true
  end.

Definition sort_desc {A} (key : A -> field Qc) : list A -> list A :=
  sort_by (fun a b => field_leb (key b) (key a)).

Definition sort_desc_num {A} (key : A -> Qc) : list A -> list A :=
  sort_by (fun a b => Qc_leb (key b) (key a)).

(** [$lookup] followed by [$unwind] of the joined array: every left document
    is paired with each right document whose foreign field equals its local
    field; a left document without a partner yields nothing. *)
Definition lookup_unwind {A B} (matches : A -> B -> bool)
  (left : list A) (right : list B) : list (A * B) :=
  flat_map (fun a => map (fun b => (a, b)) (filter (matches a) right)) left.

(** ** Collections

    The names, the fuel and the years, on which the queries match, group and
    join, are taken to be present on every record; the measures are [field]s,
    which may be null or absent. *)

(** [power_plant_database_global] *)
Module Plant.
Record t : Type := {
  country : string;
  country_long : string;
  name : string;
  primary_fuel : string;
  capacity_mw : field Qc;
  latitude : field Qc;
  longitude : field Qc;
  generation_gwh_2017 : field Qc;
  estimated_generation_gwh_2017 : field Qc
}.
End Plant.

(** [world_nuclear_energy_generation] *)
Module World.
Record t : Type := {
  Entity : string;
  Year : Z;
  electricity_from_nuclear_twh : field Qc;
  share_of_electricity_pct : field Qc
}.
End World.

(** [rates_death_from_energy_production_per_twh]; [deaths_per_twh] is the
    field "Deaths per TWh of electricity production". *)
Module Rates.
Record t : Type := {
  Entity : string;
  deaths_per_twh : field Qc
}.
End Rates.

(** [uranium_production_summary_us]; [mine_production] is the field
    "Mine production of uranium".  Both measures are stored as text. *)
Module Uranium.
Record t : Type := {
  Year : Z;
  mine_production : field string;
  Employment : field string
}.
End Uranium.

(** [us_nuclear_generating_statistics_1971_2021]; [NUCLEAR_GENERATION] is the
    field "NUCLEAR GENERATION". *)
Module Stats.
Record t : Type := {
  YEAR : Z;
  NUCLEAR_GENERATION : field Qc
}.
End Stats.

(** [uranium_purchase_price_us]; the fields "Delivery year" and
    "Total purchased". *)
Module Price.
Record t : Type := {
  Delivery_year : Z;
  Total_purchased : field Qc
}.
End Price.

(** ** QUERY 1: plants and capacity by primary fuel *)

Module Query1.

Record row : Type := {
  _id : string;
  number_of_plants : Z;
  total_capacity_mw : Qc
}.

Definition group_stage (db : list Plant.t) : list row :=
  map (fun g : string * list Plant.t =>
         {| _id := fst g;
            number_of_plants := Z.of_nat (List.length (snd g));
            total_capacity_mw := Acc.sum (map Plant.capacity_mw (snd g)) |})
      (group_by String.eqb Plant.primary_fuel db).

Definition project_stage (g : row) : row :=
  {| _id := _id g;
     number_of_plants := number_of_plants g;
     total_capacity_mw := Expr.round_num (total_capacity_mw g) 1 |}.

Definition query1 (db : list Plant.t) : list row :=
  sort_desc_num total_capacity_mw (map project_stage (group_stage db)).

End Query1.

(** ** QUERY 2: nuclear capacity of the ten leading countries *)

Module Query2.

Record row : Type := {
  _id : string;
  total_nuclear_capacity_mw : Qc
}.

Definition match_stage (db : list Plant.t) : list Plant.t :=
  filter (fun p => String.eqb (Plant.primary_fuel p) "Nuclear"%string) db.

Definition group_stage (docs : list Plant.t) : list row :=
  map (fun g : string * list Plant.t =>
         {| _id := fst g;
            total_nuclear_capacity_mw := Acc.sum (map Plant.capacity_mw (snd g)) |})
      (group_by String.eqb Plant.country_long docs).

Definition project_stage (g : row) : row :=
  {| _id := _id g;
     total_nuclear_capacity_mw := Expr.round_num (total_nuclear_capacity_mw g) 2 |}.

Definition query2 (db : list Plant.t) : list row :=
  firstn 10
    (sort_desc_num total_nuclear_capacity_mw
       (map project_stage (group_stage (match_stage db)))).

End Query2.

(** ** QUERY 3: countries above the global average nuclear share of 2023 *)

Module Query3.

Record row : Type := {
  _id : string;
  avg_nuclear_share : field Qc
}.

Definition match_stage (db : list World.t) : list World.t :=
  filter (fun d => (World.Year d =? 2023)%Z) db.

(** Step 1.  [$group] with [_id: null] yields one document when there is any
    input and none otherwise; [.toArray()[0].avg_share] then reads a property
    of [undefined]. *)
Definition globalAvg (db : list World.t) : result (field Qc) :=
  match group_by (fun _ _ : unit => true) (fun _ => tt) (match_stage db) with
  | [] => Fail UndefinedProperty
  | g :: _ => Ok (Acc.avg (map World.share_of_electricity_pct (snd g)))
  end.

Definition group_stage (docs : list World.t) : list row :=
  map (fun g : string * list World.t =>
         {| _id := fst g;
            avg_nuclear_share := Acc.avg (map World.share_of_electricity_pct (snd g)) |})
      (group_by String.eqb World.Entity docs).

Definition project_stage (g : row) : row :=
  {| _id := _id g;
     avg_nuclear_share := Expr.round (avg_nuclear_share g) 2 |}.

(** Step 2, with the threshold of step 1. *)
Definition pipeline (threshold : field Qc) (db : list World.t) : list row :=
  sort_desc avg_nuclear_share
    (map project_stage
       (filter (fun g => Match.gt_field (avg_nuclear_share g) threshold)
          (group_stage (match_stage db)))).

Definition query3 (db : list World.t) : result (list row) :=
  g <- globalAvg db ;;
  Ok (pipeline g db).

End Query3.

(** ** QUERY 4: the year of the largest increase of nuclear generation *)

Module Query4.

(** A document after [$setWindowFields] and [$addFields];
    [d_generation_difference] is its field [generation_difference]. *)
Record doc : Type := {
  root : World.t;
  prev_year_generation : field Qc;
  d_generation_difference : field Qc
}.

Record row : Type := {
  Entity : string;
  Year : Z;
  total_nuclear_generation : field Qc;
  generation_difference : field Qc
}.

(** Step 1 *)
Definition match_stage (db : list World.t) : list World.t :=
  filter (fun d => (2015 <? World.Year d)%Z && String.eqb (World.Entity d) "Canada"%string) db.

(** Step 2, and the [sortBy] of the window *)
Definition sort_year (docs : list World.t) : list World.t :=
  sort_by (fun a b => (World.Year a <=? World.Year b)%Z) docs.

(** [$shift] by -1: the value of the previous document of the partition, null
    for the first. *)
Fixpoint shift_from (prev : field Qc) (docs : list World.t) : list (World.t * field Qc) :=
  match docs with
  | [] => []
  | d :: docs' => (d, prev) :: shift_from (World.electricity_from_nuclear_twh d) docs'
  end.

(** Step 3: partitions by Entity, each sorted by Year. *)
Definition window_stage (docs : list World.t) : list (World.t * field Qc) :=
  flat_map (fun g : string * list World.t => shift_from Null (sort_year (snd g)))
           (group_by String.eqb World.Entity docs).

(** Step 4 *)
Definition add_difference (w : World.t * field Qc) : doc :=
  {| root := fst w;
     prev_year_generation := snd w;
     d_generation_difference :=
       Expr.subtract (World.electricity_from_nuclear_twh (fst w)) (snd w) |}.

(** Step 5 *)
Definition positive_stage (docs : list doc) : list doc :=
  filter (fun d => Match.gt (d_generation_difference d) zero) docs.

(** Step 6: [$group] with [$max] and [$push], then the [$filter] of the
    pushed documents, [$unwind] and [$replaceRoot]. *)
Definition argmax_stage (docs : list doc) : list doc :=
  flat_map (fun g : string * list doc =>
              let max_increase := Acc.max (map d_generation_difference (snd g)) in
              filter (fun d => Expr.eq (d_generation_difference d) max_increase) (snd g))
           (group_by String.eqb (fun d => World.Entity (root d)) docs).

(** Step 7 *)
Definition project_stage (d : doc) : row :=
  {| Entity := World.Entity (root d);
     Year := World.Year (root d);
     total_nuclear_generation := World.electricity_from_nuclear_twh (root d);
     generation_difference := d_generation_difference d |}.

Definition query4 (db : list World.t) : list row :=
  map project_stage
    (argmax_stage
       (positive_stage
          (map add_difference
             (window_stage (sort_year (match_stage db)))))).

End Query4.

(** ** QUERY 5: nuclear capacity by 5 x 5 degree band *)

Module Query5.

(** A document after [$addFields]. *)
Record doc : Type := {
  root : Plant.t;
  d_lat_band : field string;
  d_lon_band : field string
}.

Record row : Type := {
  lat_band : field string;
  lon_band : field string;
  plant_count : Z;
  total_capacity_mw : Qc;
  countries_in_band : string
}.

(** Step 1 *)
Definition match_stage (db : list Plant.t) : list Plant.t :=
  filter (fun p => String.eqb (Plant.primary_fuel p) "Nuclear"%string
                   && Match.ne_null (Plant.latitude p)
                   && Match.ne_null (Plant.longitude p)) db.

(** [$multiply: [ { $floor: { $divide: [v, 5] } }, 5 ]] *)
Definition band_lower (v : Qc) : Z :=
  (Expr.floor (v / dec 5 1) * 5)%Z.

(** [$add: [ <lower>, 5 ]] *)
Definition band_upper (v : Qc) : Z :=
  (band_lower v + 5)%Z.

(** Step 2: the [$concat] of the two bounds; null on a null operand. *)
Definition band (v : field Qc) : field string :=
  match v with
  | Val x =>
      Val (Expr.toString (band_lower x) ++ "°–"
           ++ Expr.toString (band_upper x) ++ "°")%string
  | _ => Null
  end.

Definition add_bands (p : Plant.t) : doc :=
  {| root := p;
     d_lat_band := band (Plant.latitude p);
     d_lon_band := band (Plant.longitude p) |}.

Definition label_eqb (a b : field string) : bool :=
  match a, b with
  | Val x, Val y => String.eqb x y
  | Null, Null => true
  | Absent, Absent => true
  | _, _ => false
  end.

Definition key_eqb (a b : field string * field string) : bool :=
  label_eqb (fst a) (fst b) && label_eqb (snd a) (snd b).

(** [$addToSet] *)
Definition add_to_set (l : list string) : list string :=
  fold_left (fun s c => if existsb (String.eqb c) s then s else s ++ [c]) l [].

(** [$sortArray] with [sortBy: 1] *)
Definition sort_array (l : list string) : list string :=
  sort_by String.leb l.

(** Step 4: the [$reduce] that joins the names with ", ". *)
Definition join_names (l : list string) : string :=
  fold_left (fun value this =>
               (value ++ (if String.eqb value "" then "" else ", ") ++ this)%string)
            l ""%string.

(** Steps 3 to 5 *)
Definition group_stage (docs : list doc) : list row :=
  map (fun g : (field string * field string) * list doc =>
         {| lat_band := fst (fst g);
            lon_band := snd (fst g);
            plant_count := Z.of_nat (List.length (snd g));
            total_capacity_mw :=
              Acc.sum (map (fun d => Plant.capacity_mw (root d)) (snd g));
            countries_in_band :=
              join_names
                (sort_array
                   (add_to_set (map (fun d => Plant.country_long (root d)) (snd g)))) |})
      (group_by key_eqb (fun d => (d_lat_band d, d_lon_band d)) docs).

Definition query5 (db : list Plant.t) : list row :=
  sort_desc_num total_capacity_mw
    (group_stage (map add_bands (match_stage db))).

End Query5.

(** ** QUERY 6: how many times deadlier than nuclear each source is *)

Module Query6.

Record other_doc : Type := {
  o_other_source : string;
  o_other_deaths : field Qc
}.

Record row : Type := {
  nuclear : string;
  nuclear_deaths : field Qc;
  other_source : string;
  other_deaths : field Qc;
  times_more_dangerous : field Qc
}.

(** Step 1, facet [nuclear]: documents with the one field [nuclear_deaths]. *)
Definition facet_nuclear (db : list Rates.t) : list (field Qc) :=
  map Rates.deaths_per_twh
    (filter (fun r => String.eqb (Rates.Entity r) "Nuclear"%string) db).

(** Step 1, facet [others]. *)
Definition facet_others (db : list Rates.t) : list other_doc :=
  map (fun r => {| o_other_source := Rates.Entity r;
                   o_other_deaths := Rates.deaths_per_twh r |})
    (filter (fun r => negb (String.eqb (Rates.Entity r) "Nuclear"%string)) db).

(** The path ["$nuclear.nuclear_deaths"] collects the field over the array,
    skipping the documents that lack it. *)
Definition path_values (docs : list (field Qc)) : list (field Qc) :=
  filter (fun v => match v with Absent => false | _ => true end) docs.

(** [$arrayElemAt: [ <array>, 0 ]]: missing when the array is empty. *)
Definition arrayElemAt0 (l : list (field Qc)) : field Qc :=
  match l with
  | [] => Absent
  | v :: _ => v
  end.

(** Step 2: the body of the [$map]. *)
Definition combination (nuclear_facet : list (field Qc)) (o : other_doc) : result row :=
  let nd := arrayElemAt0 (path_values nuclear_facet) in
  t <- Expr.divide (o_other_deaths o) nd ;;
  Ok {| nuclear := "Nuclear"%string;
        nuclear_deaths := nd;
        other_source := o_other_source o;
        other_deaths := o_other_deaths o;
        times_more_dangerous := t |}.

Definition query6 (db : list Rates.t) : result (list row) :=
  combinations <- map_result (combination (facet_nuclear db)) (facet_others db) ;;
  Ok (sort_desc times_more_dangerous combinations).

End Query6.

(** ** QUERY 7: nuclear against solar generation by country *)

Module Query7.

(** A document of either facet: the group key, the summed generation and the
    deaths derived from it. *)
Record branch_doc : Type := {
  b_id : string * string;      (* { country, country_long } *)
  b_gwh : Qc;
  b_deaths : Qc
}.

Record row : Type := {
  _id : string * string;
  country : string;
  country_long : string;
  nuclear_gwh : Qc;
  solar_gwh : field Qc;
  nuclear_deaths : Qc;
  solar_deaths : field Qc
}.

Definition id_eqb (a b : string * string) : bool :=
  String.eqb (fst a) (fst b) && String.eqb (snd a) (snd b).

(** One facet: [$match] on the fuel, [$group] by country, [$match] on a
    positive sum, [$addFields] with the deaths at [rate] per TWh. *)
Definition branch (fuel : string) (rate : Qc) (db : list Plant.t) : list branch_doc :=
  map (fun g : (string * string) * Qc =>
         {| b_id := fst g;
            b_gwh := snd g;
            b_deaths := snd g / dec 1000 1 * rate |})
    (filter (fun g : (string * string) * Qc => Match.gt (Val (snd g)) zero)
       (map (fun g : (string * string) * list Plant.t =>
               (fst g, Acc.sum (map Plant.estimated_generation_gwh_2017 (snd g))))
          (group_by id_eqb (fun p => (Plant.country p, Plant.country_long p))
             (filter (fun p => String.eqb (Plant.primary_fuel p) fuel) db)))).

Definition facet_nuclear : list Plant.t -> list branch_doc :=
  branch "Nuclear" (dec 7 100).

Definition facet_solar : list Plant.t -> list branch_doc :=
  branch "Solar" (dec 2 100).

(** The [$filter] on the solar facet followed by [$arrayElemAt ... 0]. *)
Definition first_solar (solar : list branch_doc) (n : branch_doc) : option branch_doc :=
  match filter (fun s => String.eqb (fst (b_id s)) (fst (b_id n))) solar with
  | [] => None
  | s :: _ => Some s
  end.

(** Step 2: [$mergeObjects] of the nuclear document with the solar one; a
    missing second operand adds nothing, a present one overrides [_id].
    Step 4 then projects the fields. *)
Definition combine (solar : list branch_doc) (n : branch_doc) : row :=
  match first_solar solar n with
  | Some s =>
      {| _id := b_id s;
         country := fst (b_id s);
         country_long := snd (b_id s);
         nuclear_gwh := b_gwh n;
         solar_gwh := Val (b_gwh s);
         nuclear_deaths := b_deaths n;
         solar_deaths := Val (b_deaths s) |}
  | None =>
      {| _id := b_id n;
         country := fst (b_id n);
         country_long := snd (b_id n);
         nuclear_gwh := b_gwh n;
         solar_gwh := Absent;
         nuclear_deaths := b_deaths n;
         solar_deaths := Absent |}
  end.

Definition query7 (db : list Plant.t) : list row :=
  sort_desc_num nuclear_gwh
    (map (combine (facet_solar db)) (facet_nuclear db)).

End Query7.

(** ** QUERY 8: real against estimated nuclear generation of 2017 *)

Module Query8.

Record row : Type := {
  country : string;
  name : string;
  real_generation : field Qc;
  estimated_generation : field Qc;
  absolute_error : field Qc;
  percent_error : field Qc
}.

(** Step 1 *)
Definition match_stage (db : list Plant.t) : list Plant.t :=
  filter (fun p => String.eqb (Plant.primary_fuel p) "Nuclear"%string
                   && Match.ne_null (Plant.generation_gwh_2017 p)
                   && Match.ne_null (Plant.estimated_generation_gwh_2017 p)) db.

(** [$abs: { $subtract: [real, estimated] }] *)
Definition abs_diff (p : Plant.t) : field Qc :=
  Expr.abs (Expr.subtract (Plant.generation_gwh_2017 p)
                          (Plant.estimated_generation_gwh_2017 p)).

(** Steps 2 and 3 *)
Definition add_errors (p : Plant.t) : result row :=
  ratio <- Expr.divide (abs_diff p) (Plant.generation_gwh_2017 p) ;;
  Ok {| country := Plant.country p;
        name := Plant.name p;
        real_generation := Plant.generation_gwh_2017 p;
        estimated_generation := Plant.estimated_generation_gwh_2017 p;
        absolute_error := Expr.round (abs_diff p) 2;
        percent_error := Expr.round (Expr.multiply ratio (Val (dec 100 1))) 2 |}.

Definition query8 (db : list Plant.t) : result (list row) :=
  rows <- map_result add_errors (match_stage db) ;;
  Ok (sort_desc percent_error rows).

End Query8.

(** ** QUERY 9: uranium production joined with nuclear generation *)

Module Query9.

Record row : Type := {
  Year : Z;
  production_million_lbs : field Qc;
  employees : field Z;
  generation_mwh : field Qc
}.

Definition is_digit (c : ascii) : bool :=
  match c with
  | "0" | "1" | "2" | "3" | "4" | "5" | "6" | "7" | "8" | "9" => true
  | _ => false
  end%char.

Definition is_dot (c : ascii) : bool := Ascii.eqb c "."%char.

Definition is_newline (c : ascii) : bool := Ascii.eqb c "010"%char.

(** The part of a text that a pattern ending in [$] has to cover: the regex
    engine of the server (PCRE) lets [$] match at the very end of the text
    and also just before a newline that is its last character. *)
Fixpoint before_dollar (l : list ascii) : list ascii :=
  match l with
  | [] => []
  | c :: l' =>
      match l' with
      | [] => if is_newline c then [] else [c]
      | _ :: _ => c :: before_dollar l'
      end
  end.

(** [/^[...]+$/] for a class of characters that holds no newline: a non-empty
    run of characters of the class, alone or followed by one final
    newline. *)
Definition matches_run (cls : ascii -> bool) (s : string) : bool :=
  match before_dollar (list_ascii_of_string s) with
  | [] => false
  | l => forallb cls l
  end.

(** [/^[0-9.]+$/] *)
Definition matches_decimal (s : string) : bool :=
  matches_run (fun c => is_digit c || is_dot c) s.

(** [/^[0-9]+$/] *)
Definition matches_integer (s : string) : bool :=
  matches_run is_digit s.

(** [$regexMatch]: false on a null or missing input. *)
Definition regexMatch (re : string -> bool) (input : field string) : bool :=
  match input with
  | Val s => re s
  | _ => false
  end.

Definition digit_value (c : ascii) : Z := (Z.of_nat (nat_of_ascii c) - 48)%Z.

(** Value of a run of digits; [None] on any other character. *)
Fixpoint digits_value (acc : Z) (l : list ascii) : option Z :=
  match l with
  | [] => Some acc
  | c :: l' =>
      if is_digit c then digits_value (acc * 10 + digit_value c)%Z l' else None
  end.

(** The characters before the first dot, and those after it if there is
    one. *)
Fixpoint split_dot (l : list ascii) : list ascii * option (list ascii) :=
  match l with
  | [] => ([], None)
  | c :: l' =>
      if is_dot c then ([], Some l')
      else let '(a, b) := split_dot l' in (c :: a, b)
  end.

(** [$toDouble] on a text the guard lets through (digits and dots, possibly
    a final newline): a decimal numeral has at most one dot and at least one
    digit; anything else, a text with a final newline included, fails the
    conversion, and with it the pipeline.  The value is the exact decimal,
    which the server rounds to the nearest double; texts so long that the
    value leaves the range of a double (over 300 characters) are outside
    this reading. *)
Definition toDouble (s : string) : result Qc :=
  let '(int_part, rest) := split_dot (list_ascii_of_string s) in
  match rest with
  | None =>
      match int_part, digits_value 0 int_part with
      | _ :: _, Some n => Ok (Q2Qc (inject_Z n))
      | _, _ => Fail ConversionFailure
      end
  | Some frac_part =>
      match int_part, frac_part with
      | [], [] => Fail ConversionFailure
      | _, _ =>
          match digits_value 0 int_part, digits_value 0 frac_part with
          | Some n, Some m =>
              Ok (Q2Qc (inject_Z n)
                  + Q2Qc (inject_Z m) / Expr.scale (List.length frac_part))
          | _, _ => Fail ConversionFailure
          end
      end
  end.

Definition int32_max : Z := 2147483647.

(** [$toInt] on a text the guard lets through: a 32-bit integer, or a
    failed conversion when the value does not fit or the text holds anything
    but digits. *)
Definition toInt (s : string) : result Z :=
  match list_ascii_of_string s with
  | [] => Fail ConversionFailure
  | l =>
      match digits_value 0 l with
      | Some n => if (n <=? int32_max)%Z then Ok n else Fail ConversionFailure
      | None => Fail ConversionFailure
      end
  end.

(** The two [$cond] expressions of the [$project]. *)
Definition production_of (input : field string) : result (field Qc) :=
  if regexMatch matches_decimal input
  then match input with
       | Val s => v <- toDouble s ;; Ok (Val v)
       | _ => Ok Null
       end
  else Ok Null.

Definition employees_of (input : field string) : result (field Z) :=
  if regexMatch matches_integer input
  then match input with
       | Val s => v <- toInt s ;; Ok (Val v)
       | _ => Ok Null
       end
  else Ok Null.

(** [$lookup] on [Year] = [YEAR], then [$unwind]. *)
Definition join_stage (prod : list Uranium.t) (stats : list Stats.t)
  : list (Uranium.t * Stats.t) :=
  lookup_unwind (fun u s => (Stats.YEAR s =? Uranium.Year u)%Z) prod stats.

Definition project_stage (d : Uranium.t * Stats.t) : result row :=
  p <- production_of (Uranium.mine_production (fst d)) ;;
  e <- employees_of (Uranium.Employment (fst d)) ;;
  Ok {| Year := Uranium.Year (fst d);
        production_million_lbs := p;
        employees := e;
        generation_mwh := Stats.NUCLEAR_GENERATION (snd d) |}.

Definition query9 (prod : list Uranium.t) (stats : list Stats.t) : result (list row) :=
  rows <- map_result project_stage (join_stage prod stats) ;;
  Ok (sort_by (fun a b => (Year b <=? Year a)%Z) rows).

End Query9.

(** ** QUERY 10: estimated yearly cost of the uranium burnt *)

Module Query10.

Record row : Type := {
  year : Z;
  nuclear_generation : field Qc;
  uranium_needed_pounds : field Qc;
  uranium_price_usd_per_lb : field Qc;
  total_uranium_cost_usd : field Qc
}.

(** Pounds of uranium per MWh. *)
Definition lbs_per_mwh : Qc := dec 7 1000.

(** Steps 1 and 2 *)
Definition join_stage (stats : list Stats.t) (prices : list Price.t)
  : list (Stats.t * Price.t) :=
  lookup_unwind (fun s p => (Price.Delivery_year p =? Stats.YEAR s)%Z) stats prices.

(** Step 3 *)
Definition match_stage (docs : list (Stats.t * Price.t)) : list (Stats.t * Price.t) :=
  filter (fun d => Match.ne_null (Stats.NUCLEAR_GENERATION (fst d))
                   && Match.ne_null (Price.Total_purchased (snd d))) docs.

(** Step 4 *)
Definition project_stage (d : Stats.t * Price.t) : row :=
  let generation := Stats.NUCLEAR_GENERATION (fst d) in
  let price := Price.Total_purchased (snd d) in
  {| year := Stats.YEAR (fst d);
     nuclear_generation := generation;
     uranium_needed_pounds :=
       Expr.round (Expr.multiply generation (Val lbs_per_mwh)) 2;
     uranium_price_usd_per_lb := price;
     total_uranium_cost_usd :=
       Expr.round
         (Expr.multiply (Expr.multiply generation (Val lbs_per_mwh)) price) 2 |}.

Definition query10 (stats : list Stats.t) (prices : list Price.t) : list row :=
  sort_by (fun a b => (year b <=? year a)%Z)
    (map project_stage (match_stage (join_stage stats prices))).

End Query10.

(** ** Reference definitions, following the wording of the specification *)

Module Spec.

(** Plain sum of a list of numbers. *)
Definition total (l : list Qc) : Qc := fold_right Qcplus zero l.

(** The numbers of a list of fields, nulls and absent fields left out. *)
Definition non_null (l : list (field Qc)) : list Qc :=
  flat_map (fun a => match a with Val x => [x] | _ => [] end) l.

(** Average recomputed directly: sum over count of the non-null values. *)
Definition mean (l : list (field Qc)) : field Qc :=
  match non_null l with
  | [] => Null
  | xs => Val (total xs / Q2Qc (inject_Z (Z.of_nat (List.length xs))))
  end.

(** [a] immediately precedes [b] in [l]. *)
Definition adjacent {A} (a b : A) (l : list A) : Prop :=
  exists l1 l2, l = l1 ++ a :: b :: l2.

(** The non-null capacities of a list of plants. *)
Definition capacities (ps : list Plant.t) : list Qc :=
  non_null (map Plant.capacity_mw ps).

(** The sum of the non-null capacities of the plants that [sel] selects. *)
Definition capacity_of (sel : Plant.t -> bool) (db : list Plant.t) : Qc :=
  total (capacities (filter sel db)).

(** The plants of a fuel; the nuclear plants of a country; the nuclear plants
    with both coordinates that fall in a band. *)
Definition of_fuel (fuel : string) (p : Plant.t) : bool :=
  String.eqb fuel (Plant.primary_fuel p).

Definition nuclear_of_country (c : string) (p : Plant.t) : bool :=
  String.eqb (Plant.primary_fuel p) "Nuclear"
  && String.eqb c (Plant.country_long p).

Definition nuclear_in_band (lat lon : field string) (p : Plant.t) : bool :=
  String.eqb (Plant.primary_fuel p) "Nuclear"
  && Match.ne_null (Plant.latitude p)
  && Match.ne_null (Plant.longitude p)
  && Query5.key_eqb (lat, lon)
       (Query5.band (Plant.latitude p), Query5.band (Plant.longitude p)).

(** The number of elements of a list, as a number. *)
Definition count {A} (l : list A) : Qc :=
  Q2Qc (inject_Z (Z.of_nat (List.length l))).

(** The text holds a character that is not a decimal digit. *)
Definition has_non_digit (s : string) : Prop :=
  exists c, In c (list_ascii_of_string s) /\ Query9.is_digit c = false.

(** The last character of the text is a newline. *)
Definition final_newline (s : string) : bool :=
  Query9.is_newline (last (list_ascii_of_string s) "0"%char).

(** The estimated generation of the plants of one fuel in one country,
    nulls left out. *)
Definition generation_of (fuel : string) (id : string * string)
  (db : list Plant.t) : Qc :=
  total (non_null
    (map Plant.estimated_generation_gwh_2017
       (filter (fun p => Query7.id_eqb id (Plant.country p, Plant.country_long p))
          (filter (fun p => String.eqb (Plant.primary_fuel p) fuel) db)))).


(** Query 4: the documents with a positive difference to the preceding
    record, over the records of Canada after 2015 in order of year. *)
Definition positive_docs (db : list World.t) : list Query4.doc :=
  Query4.positive_stage
    (map Query4.add_difference
       (Query4.shift_from Null (Query4.sort_year (Query4.match_stage db)))).

End Spec.

(** ** Small collections used in the examples *)

Module Sample.

Definition plant (country country_long fuel : string)
  (real estimated : field Qc) : Plant.t :=
  {| Plant.country := country;
     Plant.country_long := country_long;
     Plant.name := (country_long ++ " 1")%string;
     Plant.primary_fuel := fuel;
     Plant.capacity_mw := Val (dec 900 1);
     Plant.latitude := Val (dec 47 1);
     Plant.longitude := Val (dec 2 1);
     Plant.generation_gwh_2017 := real;
     Plant.estimated_generation_gwh_2017 := estimated |}.




(** France has nuclear plants only, Spain solar plants only. *)
Definition plants_one_sided : list Plant.t :=
  [ plant "FRA" "France" "Nuclear" Null (Val (dec 100 1));
    plant "ESP" "Spain" "Solar" Null (Val (dec 50 1)) ].

(** France has a solar plant with an estimated generation of zero. *)
Definition plants_zero_solar : list Plant.t :=
  [ plant "FRA" "France" "Nuclear" Null (Val (dec 100 1));
    plant "FRA" "France" "Solar" Null (Val (dec 0 1)) ].

Definition generation (entity : string) (year : Z) (twh share : Qc) : World.t :=
  {| World.Entity := entity;
     World.Year := year;
     World.electricity_from_nuclear_twh := Val twh;
     World.share_of_electricity_pct := Val share |}.



(** Shares of 10.004 and 9.998 percent in 2023: the average is 10.001. *)
Definition world_2023 : list World.t :=
  [ generation "Finland" 2023 (dec 30 1) (dec 10004 1000);
    generation "Sweden" 2023 (dec 50 1) (dec 9998 1000) ].

(** Nuclear plants of 900 MW, of unknown capacity and of 1300 MW, and a coal
    plant of 600 MW. *)
Definition with_capacity (c : field Qc) (p : Plant.t) : Plant.t :=
  {| Plant.country := Plant.country p;
     Plant.country_long := Plant.country_long p;
     Plant.name := Plant.name p;
     Plant.primary_fuel := Plant.primary_fuel p;
     Plant.capacity_mw := c;
     Plant.latitude := Plant.latitude p;
     Plant.longitude := Plant.longitude p;
     Plant.generation_gwh_2017 := Plant.generation_gwh_2017 p;
     Plant.estimated_generation_gwh_2017 := Plant.estimated_generation_gwh_2017 p |}.

Definition plants_capacity : list Plant.t :=
  [ plant "FRA" "France" "Nuclear" Null Null;
    with_capacity Null (plant "FRA" "France" "Nuclear" Null Null);
    with_capacity (Val (dec 1300 1)) (plant "FRA" "France" "Nuclear" Null Null);
    with_capacity (Val (dec 600 1)) (plant "DEU" "Germany" "Coal" Null Null) ].

(** Generation of 790 MWh in 2020 and none recorded for 2021; a price of
    33.41 USD per pound in 2020. *)
Definition stats_2020 : list Stats.t :=
  [ {| Stats.YEAR := 2020; Stats.NUCLEAR_GENERATION := Val (dec 790 1) |};
    {| Stats.YEAR := 2021; Stats.NUCLEAR_GENERATION := Null |} ].

Definition prices_2020 : list Price.t :=
  [ {| Price.Delivery_year := 2020; Price.Total_purchased := Val (dec 3341 100) |} ].

End Sample.

(** ** Further reference definitions *)

Module Aux.

(** Plain sum of a list of integers. *)
Definition sum_Z (l : list Z) : Z := fold_right Z.add 0%Z l.

(** The number of dots and of digits of a text. *)
Definition dots (s : string) : nat :=
  List.length (filter Query9.is_dot (list_ascii_of_string s)).

Definition digits (s : string) : nat :=
  List.length (filter Query9.is_digit (list_ascii_of_string s)).

(** The order of [{ $sort: { key: -1 } }] on two rows, by their keys. *)
Definition desc_num {A} (key : A -> Qc) (a b : A) : bool := Qc_leb (key b) (key a).

Definition desc_field {A} (key : A -> field Qc) (a b : A) : bool :=
  field_leb (key b) (key a).

Definition desc_Z {A} (key : A -> Z) (a b : A) : bool := (key b <=? key a)%Z.

End Aux.

(** ** Further sample documents *)

Module Cases.

(** Death rates of 24.62 for coal and 0.03 for nuclear, wind without one. *)
Definition rates : list Rates.t :=
  [ {| Rates.Entity := "Coal"; Rates.deaths_per_twh := Val (dec 2462 100) |};
    {| Rates.Entity := "Nuclear"; Rates.deaths_per_twh := Val (dec 3 100) |};
    {| Rates.Entity := "Wind"; Rates.deaths_per_twh := Null |} ].

(** A gas plant and a coal plant of 0.04 MW each. *)
Definition plants_small : list Plant.t :=
  [ Sample.with_capacity (Val (dec 4 100))
      (Sample.plant "DEU" "Germany" "Gas" Null Null);
    Sample.with_capacity (Val (dec 4 100))
      (Sample.plant "DEU" "Germany" "Coal" Null Null) ].

(** Canada with records of 2016 and 2018 and none of 2017. *)
Definition world_gap : list World.t :=
  [ Sample.generation "Canada" 2016 (dec 100 1) (dec 15 1);
    Sample.generation "Canada" 2018 (dec 130 1) (dec 15 1) ].

(** A production record whose Employment text is "100" and a newline, with
    statistics of its year. *)
Definition employment_newline : string :=
  ("100" ++ String "010"%char EmptyString)%string.

Definition uranium_newline : list Uranium.t :=
  [ {| Uranium.Year := 2020;
       Uranium.mine_production := Val "4.1"%string;
       Uranium.Employment := Val employment_newline |} ].

Definition stats : list Stats.t :=
  [ {| Stats.YEAR := 2020; Stats.NUCLEAR_GENERATION := Val (dec 790 1) |} ].

End Cases.

(** * Properties *)

(** ** Comparisons on numbers *)

Lemma Qc_ltb_lt (x y : Qc) : Qc_ltb x y = true <-> x < y.
Proof.
  unfold Qc_ltb, Qclt. rewrite negb_true_iff.
  split; intro H.
  - apply Qnot_le_lt. intro Hle. apply Qle_bool_iff in Hle. congruence.
  - destruct (Qle_bool y x) eqn:E; [|reflexivity].
    apply Qle_bool_iff in E. exfalso. exact (Qlt_not_le _ _ H E).
Qed.

Lemma Qc_eqb_eq (x y : Qc) : Qc_eqb x y = true <-> x = y.
Proof.
  unfold Qc_eqb. split.
  - apply Qc_eq_bool_correct.
  - intros ->. unfold Qc_eq_bool. destruct (Qc_eq_dec y y); congruence.
Qed.

(** Turns a goal on [Qc] into one on [Q], for [lra]. *)
Ltac qc_to_q :=
  unfold Qcle, Qclt, Qcdiv, Qcminus in *;
  unfold Qcplus, Qcopp, Qcmult, Qcinv, dec in *;
  unfold Q2Qc in *; cbn [this] in *; rewrite ?Qred_correct in *.

(** ** [$sort] keeps the documents *)

Section SortFacts.

Context {A : Type} (leb : A -> A -> bool).

Lemma sort_insert_perm (a : A) (l : list A) :
  Permutation (sort_insert leb a l) (a :: l).
Proof.
  induction l as [|b l IH]; simpl.
  - apply Permutation_refl.
  - destruct (leb a b).
    + apply Permutation_refl.
    + eapply perm_trans; [apply perm_skip, IH | apply perm_swap].
Qed.

Lemma sort_by_perm (l : list A) : Permutation (sort_by leb l) l.
Proof.
  induction l as [|a l IH]; simpl.
  - apply perm_nil.
  - eapply perm_trans; [apply sort_insert_perm | apply perm_skip, IH].
Qed.

Lemma sort_by_In (x : A) (l : list A) : In x (sort_by leb l) <-> In x l.
Proof.
  split; apply Permutation_in;
    [apply sort_by_perm | apply Permutation_sym, sort_by_perm].
Qed.

Lemma sort_by_length (l : list A) : List.length (sort_by leb l) = List.length l.
Proof. apply Permutation_length, sort_by_perm. Qed.

(** A list already in order is left as it is. *)
Lemma sort_by_ordered_id (l : list A) : ordered leb l -> sort_by leb l = l.
Proof.
  induction l as [|a l IH]; simpl; [reflexivity|].
  intros [Hab Hl]. rewrite (IH Hl).
  destruct l as [|b l']; simpl; [reflexivity|].
  now rewrite Hab.
Qed.

Hypothesis leb_total : forall a b, leb a b = false -> leb b a = true.

Lemma sort_insert_ordered (a : A) (l : list A) :
  ordered leb l -> ordered leb (sort_insert leb a l).
Proof.
  induction l as [|b l IH]; simpl; [auto|].
  intros [Hb Hl]. destruct (leb a b) eqn:E.
  - simpl. auto.
  - specialize (IH Hl). simpl. split; [|exact IH].
    destruct l as [|c l']; simpl in *.
    + now apply leb_total.
    + destruct (leb a c); [now apply leb_total | exact Hb].
Qed.

Lemma sort_by_is_ordered (l : list A) : ordered leb (sort_by leb l).
Proof.
  induction l as [|a l IH]; simpl; [exact I|].
  now apply sort_insert_ordered.
Qed.

End SortFacts.

(** ** [$group] partitions the documents by key *)

Section GroupFacts.

Context {A K : Type} (keq : K -> K -> bool) (key : A -> K).
Hypothesis keq_eq : forall a b, keq a b = true <-> a = b.

Lemma keq_refl (k : K) : keq k k = true.
Proof. now apply keq_eq. Qed.

Lemma bucket_bucket_add (k' k : K) (a : A) (gs : list (K * list A)) :
  bucket keq k' (bucket_add keq k a gs) =
  if keq k' k then bucket keq k' gs ++ [a] else bucket keq k' gs.
Proof.
  unfold bucket.
  induction gs as [|[k1 b] gs IH]; simpl.
  - destruct (keq k' k); reflexivity.
  - destruct (keq k k1) eqn:E1; simpl.
    + apply keq_eq in E1. subst k1.
      destruct (keq k' k); reflexivity.
    + destruct (keq k' k1) eqn:E2; simpl.
      * apply keq_eq in E2. subst k1.
        destruct (keq k' k) eqn:E3; [|reflexivity].
        apply keq_eq in E3. subst k'. rewrite keq_refl in E1. discriminate.
      * exact IH.
Qed.

Lemma bucket_fold (k : K) (l : list A) (gs : list (K * list A)) :
  bucket keq k (fold_left (fun gs a => bucket_add keq (key a) a gs) l gs) =
  bucket keq k gs ++ filter (fun a => keq k (key a)) l.
Proof.
  revert gs. induction l as [|a l IH]; intro gs; simpl.
  - now rewrite app_nil_r.
  - rewrite IH, bucket_bucket_add.
    destruct (keq k (key a)); [now rewrite <- app_assoc | reflexivity].
Qed.

Lemma group_by_bucket (k : K) (l : list A) :
  bucket keq k (group_by keq key l) = filter (fun a => keq k (key a)) l.
Proof. unfold group_by. now rewrite bucket_fold. Qed.

Lemma bucket_add_keys_in (k k' : K) (a : A) (gs : list (K * list A)) :
  In k' (map fst (bucket_add keq k a gs)) <-> k' = k \/ In k' (map fst gs).
Proof.
  induction gs as [|[k1 b] gs IH]; simpl.
  - intuition.
  - destruct (keq k k1) eqn:E; simpl.
    + apply keq_eq in E. subst k1. intuition.
    + rewrite IH. intuition.
Qed.

Lemma bucket_add_NoDup (k : K) (a : A) (gs : list (K * list A)) :
  NoDup (map fst gs) -> NoDup (map fst (bucket_add keq k a gs)).
Proof.
  induction gs as [|[k1 b] gs IH]; simpl; intro H.
  - constructor; [intros [] | constructor].
  - inversion H as [|? ? Hnin Hnd]; subst.
    destruct (keq k k1) eqn:E; simpl.
    + constructor; assumption.
    + constructor; [|now apply IH].
      rewrite bucket_add_keys_in. intros [->|Hin]; [|contradiction].
      rewrite keq_refl in E. discriminate.
Qed.

Lemma bucket_add_nonempty (k : K) (a : A) (gs : list (K * list A)) :
  Forall (fun g => snd g <> []) gs ->
  Forall (fun g => snd g <> []) (bucket_add keq k a gs).
Proof.
  induction gs as [|[k1 b] gs IH]; simpl; intro H.
  - constructor; [discriminate | constructor].
  - inversion H; subst. destruct (keq k k1); constructor; simpl in *; auto.
    intro E. apply app_eq_nil in E. destruct E; discriminate.
Qed.

Lemma bucket_add_perm (k : K) (a : A) (gs : list (K * list A)) :
  Permutation (List.concat (map snd (bucket_add keq k a gs))) (a :: List.concat (map snd gs)).
Proof.
  induction gs as [|[k1 b] gs IH]; simpl.
  - apply Permutation_refl.
  - destruct (keq k k1); simpl.
    + rewrite <- app_assoc. simpl.
      apply Permutation_sym, Permutation_middle.
    + eapply perm_trans; [apply Permutation_app_head, IH|].
      apply Permutation_sym, Permutation_middle.
Qed.

Lemma group_fold_invariants (l : list A) (gs : list (K * list A)) :
  NoDup (map fst gs) -> Forall (fun g => snd g <> []) gs ->
  let gs' := fold_left (fun gs a => bucket_add keq (key a) a gs) l gs in
  NoDup (map fst gs') /\ Forall (fun g => snd g <> []) gs'
  /\ Permutation (List.concat (map snd gs')) (List.concat (map snd gs) ++ l).
Proof.
  revert gs. induction l as [|a l IH]; intros gs Hnd Hne; simpl.
  - rewrite app_nil_r. auto using Permutation_refl.
  - destruct (IH (bucket_add keq (key a) a gs)) as (H1 & H2 & H3).
    + now apply bucket_add_NoDup.
    + now apply bucket_add_nonempty.
    + repeat split; try assumption.
      eapply perm_trans; [exact H3|].
      eapply perm_trans; [apply Permutation_app_tail, bucket_add_perm|].
      simpl. apply Permutation_middle.
Qed.

Lemma group_by_NoDup (l : list A) : NoDup (map fst (group_by keq key l)).
Proof. apply (group_fold_invariants l []); constructor. Qed.

Lemma group_by_perm (l : list A) :
  Permutation (List.concat (map snd (group_by keq key l))) l.
Proof. apply (group_fold_invariants l []); constructor. Qed.

Lemma bucket_of_member (k : K) (b : list A) (gs : list (K * list A)) :
  NoDup (map fst gs) -> In (k, b) gs -> bucket keq k gs = b.
Proof.
  unfold bucket.
  induction gs as [|[k1 b1] gs IH]; simpl; intros Hnd Hin; [contradiction|].
  inversion Hnd as [|? ? Hnin Hnd']; subst.
  destruct Hin as [E|Hin].
  - inversion E; subst. now rewrite keq_refl.
  - destruct (keq k k1) eqn:E.
    + apply keq_eq in E. subst k1. exfalso. apply Hnin.
      change k with (fst (k, b)). now apply in_map.
    + now apply IH.
Qed.

(** The bucket of a key holds exactly the documents with that key, in input
    order, and is never empty. *)
Lemma group_by_member (k : K) (b : list A) (l : list A) :
  In (k, b) (group_by keq key l) ->
  b = filter (fun a => keq k (key a)) l /\ b <> [].
Proof.
  intro Hin. split.
  - rewrite <- group_by_bucket. symmetry.
    apply bucket_of_member; [apply group_by_NoDup | exact Hin].
  - pose proof (group_fold_invariants l [] (NoDup_nil _) (Forall_nil _)) as (_ & H & _).
    rewrite Forall_forall in H. exact (H _ Hin).
Qed.

(** Every document falls in the bucket of its key. *)
Lemma group_by_complete (a : A) (l : list A) :
  In a l ->
  In (key a, filter (fun x => keq (key a) (key x)) l) (group_by keq key l).
Proof.
  intro Hin.
  pose proof (group_by_bucket (key a) l) as Hb.
  unfold bucket in Hb.
  destruct (find (fun g => keq (key a) (fst g)) (group_by keq key l)) as [[k b]|] eqn:F.
  - apply find_some in F. destruct F as [Hg Hk]. simpl in *.
    apply keq_eq in Hk. subst. exact Hg.
  - exfalso.
    assert (Ha : In a (filter (fun x => keq (key a) (key x)) l)).
    { apply filter_In. split; [exact Hin | apply keq_refl]. }
    rewrite <- Hb in Ha. exact Ha.
Qed.

End GroupFacts.

Lemma string_eqb_eq (a b : string) : String.eqb a b = true <-> a = b.
Proof. apply String.eqb_eq. Qed.

(** ** [$sum] is the sum of the non-null values *)

Lemma total_app (l1 l2 : list Qc) :
  Spec.total (l1 ++ l2) = Spec.total l1 + Spec.total l2.
Proof.
  induction l1 as [|x l1 IH]; simpl.
  - unfold zero, dec. ring.
  - rewrite IH. ring.
Qed.

Lemma total_perm (l1 l2 : list Qc) :
  Permutation l1 l2 -> Spec.total l1 = Spec.total l2.
Proof.
  induction 1; simpl; try congruence.
  ring.
Qed.

Lemma non_null_app (l1 l2 : list (field Qc)) :
  Spec.non_null (l1 ++ l2) = Spec.non_null l1 ++ Spec.non_null l2.
Proof. unfold Spec.non_null. now rewrite flat_map_app. Qed.

Lemma non_null_perm (l1 l2 : list (field Qc)) :
  Permutation l1 l2 -> Permutation (Spec.non_null l1) (Spec.non_null l2).
Proof.
  induction 1; simpl.
  - apply perm_nil.
  - now apply Permutation_app_head.
  - rewrite !app_assoc. apply Permutation_app_tail, Permutation_app_comm.
  - eapply perm_trans; eassumption.
Qed.

Lemma sum_fold (l : list (field Qc)) (s : Qc) :
  fold_left (fun s a => match a with Val x => s + x | _ => s end) l s =
  s + Spec.total (Spec.non_null l).
Proof.
  revert s. induction l as [|a l IH]; intro s; simpl.
  - unfold zero, dec. ring.
  - rewrite IH. destruct a; simpl; ring.
Qed.

Lemma sum_is_total (l : list (field Qc)) :
  Acc.sum l = Spec.total (Spec.non_null l).
Proof. unfold Acc.sum. rewrite sum_fold. unfold zero, dec. ring. Qed.

Lemma filter_of_map {A B} (f : B -> bool) (g : A -> B) (l : list A) :
  filter f (map g l) = map g (filter (fun a => f (g a)) l).
Proof.
  induction l as [|a l IH]; simpl; [reflexivity|].
  destruct (f (g a)); simpl; now rewrite IH.
Qed.

Lemma total_of_buckets {A K} (value : A -> field Qc) (gs : list (K * list A)) :
  Spec.total (map (fun g => Acc.sum (map value (snd g))) gs) =
  Spec.total (Spec.non_null (map value (List.concat (map snd gs)))).
Proof.
  induction gs as [|[k b] gs IH]; simpl; [reflexivity|].
  rewrite IH, map_app, non_null_app, total_app, sum_is_total. reflexivity.
Qed.

Lemma label_eqb_eq (a b : field string) : Query5.label_eqb a b = true <-> a = b.
Proof.
  destruct a, b; simpl; split; intro H;
    try discriminate; try reflexivity.
  - apply String.eqb_eq in H. now subst.
  - inversion H. apply String.eqb_refl.
Qed.

Lemma key_eqb_eq (a b : field string * field string) :
  Query5.key_eqb a b = true <-> a = b.
Proof.
  destruct a as [a1 a2], b as [b1 b2]. unfold Query5.key_eqb. simpl.
  rewrite andb_true_iff, !label_eqb_eq.
  split; [intros [-> ->]; reflexivity | intro H; inversion H; auto].
Qed.

(** The totals at the [$group] stages: each is the plain sum of the non-null
    capacities of the rows of its group, and those of query 1 add up to the
    sum of the non-null capacities of the whole collection. *)
Lemma group_totals_skip_null (db : list Plant.t) :
  (forall g, In g (Query1.group_stage db) ->
     Query1.total_capacity_mw g =
     Spec.total (Spec.capacities
       (filter (fun p => String.eqb (Query1._id g) (Plant.primary_fuel p)) db)))
  /\ (forall g, In g (Query2.group_stage (Query2.match_stage db)) ->
     Query2.total_nuclear_capacity_mw g =
     Spec.total (Spec.capacities
       (filter (fun p => String.eqb (Query2._id g) (Plant.country_long p))
          (Query2.match_stage db))))
  /\ (forall r, In r (Query5.query5 db) ->
     Query5.total_capacity_mw r =
     Spec.total (Spec.capacities
       (filter (fun p => Query5.key_eqb
                           (Query5.lat_band r, Query5.lon_band r)
                           (Query5.band (Plant.latitude p),
                            Query5.band (Plant.longitude p)))
          (Query5.match_stage db))))
  /\ Spec.total (map Query1.total_capacity_mw (Query1.group_stage db)) =
     Spec.total (Spec.capacities db)
  /\ (forall r, In r (Query1.query1 db) ->
     Query1.total_capacity_mw r =
     Expr.round_num
       (Spec.total (Spec.capacities
          (filter (fun p => String.eqb (Query1._id r) (Plant.primary_fuel p)) db))) 1).
Proof.
  assert (H1 : forall g, In g (Query1.group_stage db) ->
     Query1.total_capacity_mw g =
     Spec.total (Spec.capacities
       (filter (fun p => String.eqb (Query1._id g) (Plant.primary_fuel p)) db))).
  { intros g Hg. unfold Query1.group_stage in Hg.
    apply in_map_iff in Hg. destruct Hg as [[k b] [<- Hin]]. simpl.
    apply (group_by_member _ _ string_eqb_eq) in Hin. destruct Hin as [-> _].
    apply sum_is_total. }
  repeat split.
  - exact H1.
  - intros g Hg. unfold Query2.group_stage in Hg.
    apply in_map_iff in Hg. destruct Hg as [[k b] [<- Hin]]. simpl.
    apply (group_by_member _ _ string_eqb_eq) in Hin. destruct Hin as [-> _].
    apply sum_is_total.
  - intros r Hr. unfold Query5.query5, sort_desc_num in Hr.
    apply sort_by_In in Hr. unfold Query5.group_stage in Hr.
    apply in_map_iff in Hr. destruct Hr as [[[k1 k2] b] [<- Hin]]. simpl.
    apply (group_by_member _ _ key_eqb_eq) in Hin. destruct Hin as [-> _].
    rewrite sum_is_total, filter_of_map, map_map. simpl.
    reflexivity.
  - unfold Query1.group_stage. rewrite map_map. simpl.
    rewrite (total_of_buckets Plant.capacity_mw).
    apply total_perm, non_null_perm, Permutation_map.
    apply (group_by_perm _ _ string_eqb_eq).
  - intros r Hr. unfold Query1.query1, sort_desc_num in Hr.
    apply sort_by_In in Hr. apply in_map_iff in Hr.
    destruct Hr as [g [<- Hg]]. simpl. now rewrite (H1 g Hg).
Qed.

(** ** Bands of query 5 *)

Lemma this_div5 (v : Qc) : (this (v / dec 5 1) == this v * (1 # 5))%Q.
Proof.
  unfold Qcdiv, Qcmult, Qcinv, dec, Q2Qc. cbn [this].
  rewrite !Qred_correct. reflexivity.
Qed.

Lemma band_lower_bounds (v : Qc) :
  Q2Qc (inject_Z (Query5.band_lower v)) <= v /\
  v < Q2Qc (inject_Z (Query5.band_lower v + 5)).
Proof.
  unfold Query5.band_lower, Expr.floor, Qcle, Qclt, Q2Qc. cbn [this].
  rewrite !Qred_correct.
  pose proof (Qfloor_le (this (v / dec 5 1))) as Hl.
  pose proof (Qlt_floor (this (v / dec 5 1))) as Hu.
  pose proof (this_div5 v) as E.
  set (f := Qfloor (this (v / dec 5 1))) in *.
  set (q := this (v / dec 5 1)) in *.
  rewrite inject_Z_plus in Hu |- *. rewrite inject_Z_mult.
  change (inject_Z 5) with (5 # 1)%Q. change (inject_Z 1) with (1 # 1)%Q in Hu.
  split; lra.
Qed.

Lemma query5_row_origin (db : list Plant.t) (r : Query5.row) :
  In r (Query5.query5 db) ->
  exists p x y,
    In p db /\ Plant.primary_fuel p = "Nuclear"%string
    /\ Plant.latitude p = Val x /\ Plant.longitude p = Val y
    /\ Query5.lat_band r = Query5.band (Val x)
    /\ Query5.lon_band r = Query5.band (Val y).
Proof.
  intro Hr. unfold Query5.query5, sort_desc_num in Hr.
  apply sort_by_In in Hr. unfold Query5.group_stage in Hr.
  apply in_map_iff in Hr. destruct Hr as [[[k1 k2] b] [<- Hin]]. simpl.
  apply (group_by_member _ _ key_eqb_eq) in Hin. destruct Hin as [Hb Hne].
  destruct b as [|d b]; [congruence|].
  assert (Hd : In d (filter
            (fun a => Query5.key_eqb (k1, k2) (Query5.d_lat_band a, Query5.d_lon_band a))
            (map Query5.add_bands (Query5.match_stage db)))).
  { rewrite <- Hb. now left. }
  apply filter_In in Hd. destruct Hd as [Hd Hk].
  apply key_eqb_eq in Hk. inversion Hk; subst k1 k2.
  apply in_map_iff in Hd. destruct Hd as [p [<- Hp]].
  unfold Query5.match_stage in Hp. apply filter_In in Hp.
  destruct Hp as [Hp Hc]. rewrite !andb_true_iff in Hc.
  destruct Hc as [[Hf Hlat] Hlon].
  apply String.eqb_eq in Hf.
  destruct (Plant.latitude p) as [| |x] eqn:Elat; try discriminate.
  destruct (Plant.longitude p) as [| |y] eqn:Elon; try discriminate.
  exists p, x, y. simpl. rewrite Elat, Elon. auto 10.
Qed.

(** C8.  For every coordinate [v] of query 5 the lower bound of the band is
    [floor (v / 5) * 5]: the one multiple of 5 with [lower <= v < lower + 5],
    so the floor and not the truncation toward zero; the upper bound is
    [lower + 5] and the label is the lower bound, "°–", the upper bound and
    "°".  A latitude of -3 falls in the band with lower bound -5, labelled
    "-5°–0°".  Every row of the result carries the labels of the bands of
    the coordinates of a nuclear plant. *)
Theorem band_lower_is_floor (v : Qc) (db : list Plant.t) :
  (exists k : Z, Query5.band_lower v = (5 * k)%Z)
  /\ Q2Qc (inject_Z (Query5.band_lower v)) <= v
  /\ v < Q2Qc (inject_Z (Query5.band_lower v + 5))
  /\ (forall lo : Z,
        (exists k : Z, lo = (5 * k)%Z) ->
        Q2Qc (inject_Z lo) <= v -> v < Q2Qc (inject_Z (lo + 5)) ->
        lo = Query5.band_lower v)
  /\ Query5.band_upper v = (Query5.band_lower v + 5)%Z
  /\ Query5.band (Val v) =
     Val (Expr.toString (Query5.band_lower v) ++ "°–"
          ++ Expr.toString (Query5.band_lower v + 5) ++ "°")%string
  /\ Query5.band_lower (dec (-3) 1) = (-5)%Z
  /\ Query5.band (Val (dec (-3) 1)) = Val "-5°–0°"%string
  /\ (forall r, In r (Query5.query5 db) ->
      exists p x y,
        In p db /\ Plant.primary_fuel p = "Nuclear"%string
        /\ Plant.latitude p = Val x /\ Plant.longitude p = Val y
        /\ Query5.lat_band r = Query5.band (Val x)
        /\ Query5.lon_band r = Query5.band (Val y)).
Proof.
  destruct (band_lower_bounds v) as [Hl Hu].
  assert (Hk : exists k : Z, Query5.band_lower v = (5 * k)%Z).
  { exists (Expr.floor (v / dec 5 1)). unfold Query5.band_lower. lia. }
  repeat split; try assumption.
  - intros lo [k Hlo] Hlo1 Hlo2. destruct Hk as [f Hf].
    pose proof (Qcle_lt_trans _ _ _ Hlo1 Hu) as H1.
    pose proof (Qcle_lt_trans _ _ _ Hl Hlo2) as H2.
    qc_to_q. rewrite <- Zlt_Qlt in H1, H2. lia.
  - intros r Hr. now apply query5_row_origin.
Qed.

(** ** Joins *)

Lemma lookup_unwind_In {A B} (matches : A -> B -> bool)
  (left : list A) (right : list B) (a : A) (b : B) :
  In (a, b) (lookup_unwind matches left right) <->
  In a left /\ In b right /\ matches a b = true.
Proof.
  unfold lookup_unwind. rewrite in_flat_map. split.
  - intros [a' [Ha Hin]]. apply in_map_iff in Hin.
    destruct Hin as [b' [E Hb]]. inversion E; subst.
    apply filter_In in Hb. tauto.
  - intros (Ha & Hb & Hm). exists a. split; [exact Ha|].
    apply in_map. apply filter_In. tauto.
Qed.

Lemma Qc_neq_by_eqb (x y : Qc) : Qc_eqb x y = false -> x <> y.
Proof. intros H E. apply Qc_eqb_eq in E. congruence. Qed.

(** C7.  In query 10 rounding happens only in the projection: a row of the
    result stands for a statistics record and a price record of the same
    year, both values non-null, and its [total_uranium_cost_usd] is
    [round (generation * 0.007 * price, 2)], computed from the unrounded
    quantity; [uranium_needed_pounds] is rounded separately.  The two-decimal
    quantity is not what the cost is computed from: the two computations
    differ (for 1 MWh at 100 USD per pound). *)
Theorem cost_uses_unrounded_quantity
  (stats : list Stats.t) (prices : list Price.t) (r : Query10.row) :
  (In r (Query10.query10 stats prices) <->
   exists s p g c,
     In s stats /\ In p prices
     /\ Price.Delivery_year p = Stats.YEAR s
     /\ Stats.NUCLEAR_GENERATION s = Val g
     /\ Price.Total_purchased p = Val c
     /\ r = {| Query10.year := Stats.YEAR s;
               Query10.nuclear_generation := Val g;
               Query10.uranium_needed_pounds :=
                 Val (Expr.round_num (g * Query10.lbs_per_mwh) 2);
               Query10.uranium_price_usd_per_lb := Val c;
               Query10.total_uranium_cost_usd :=
                 Val (Expr.round_num (g * Query10.lbs_per_mwh * c) 2) |})
  /\ Expr.round_num (Expr.round_num (dec 1 1 * Query10.lbs_per_mwh) 2 * dec 100 1) 2
     <> Expr.round_num (dec 1 1 * Query10.lbs_per_mwh * dec 100 1) 2.
Proof.
  split.
  - unfold Query10.query10. rewrite sort_by_In, in_map_iff. split.
    + intros [[s p] [<- Hin]].
      unfold Query10.match_stage in Hin. apply filter_In in Hin.
      destruct Hin as [Hin Hc]. apply andb_true_iff in Hc. simpl in Hc.
      apply lookup_unwind_In in Hin. destruct Hin as (Hs & Hp & Hy).
      apply Z.eqb_eq in Hy.
      unfold Query10.project_stage. simpl.
      destruct (Stats.NUCLEAR_GENERATION s) as [| |g] eqn:Eg;
        destruct Hc as [Hc1 Hc2]; try discriminate.
      destruct (Price.Total_purchased p) as [| |c] eqn:Ec; try discriminate.
      exists s, p, g, c. simpl. auto 10.
    + intros (s & p & g & c & Hs & Hp & Hy & Eg & Ec & ->).
      exists (s, p). split.
      * unfold Query10.project_stage. simpl. rewrite Eg, Ec. reflexivity.
      * unfold Query10.match_stage. apply filter_In. simpl. split.
        -- apply lookup_unwind_In. repeat split; try assumption.
           now apply Z.eqb_eq.
        -- rewrite Eg, Ec. reflexivity.
  - apply Qc_neq_by_eqb. vm_compute. reflexivity.
Qed.

(** ** Stages that may fail *)

Lemma map_result_Ok {A B} (f : A -> result B) (l : list A) (bs : list B) :
  map_result f l = Ok bs ->
  forall b, In b bs <-> exists a, In a l /\ f a = Ok b.
Proof.
  revert bs. induction l as [|a l IH]; simpl; intros bs H b.
  - inversion H; subst. simpl. split; [contradiction | intros [? [[] _]]].
  - destruct (f a) as [b0|e] eqn:Ea; simpl in H; [|discriminate].
    destruct (map_result f l) as [bs0|e] eqn:El; simpl in H; [|discriminate].
    inversion H; subst. simpl. rewrite (IH bs0 eq_refl b). split.
    + intros [->|[a' [Ha Hf]]]; eauto.
    + intros [a' [[->|Ha] Hf]]; [left; congruence | right; eauto].
Qed.

Lemma map_result_length {A B} (f : A -> result B) (l : list A) (bs : list B) :
  map_result f l = Ok bs -> List.length bs = List.length l.
Proof.
  revert bs. induction l as [|a l IH]; simpl; intros bs H.
  - now inversion H.
  - destruct (f a) as [b0|e]; simpl in H; [|discriminate].
    destruct (map_result f l) as [bs0|e]; simpl in H; [|discriminate].
    inversion H; subst. simpl. now rewrite (IH bs0).
Qed.


Lemma map_result_first_failure {A B} (f : A -> result B) (l : list A) (e : error) :
  (exists a, In a l /\ f a = Fail e) ->
  (forall a e', In a l -> f a = Fail e' -> e' = e) ->
  map_result f l = Fail e.
Proof.
  induction l as [|a l IH]; simpl; intros [a0 [Hin Hf]] Hall; [contradiction|].
  destruct (f a) as [b|e'] eqn:Ea; simpl.
  - destruct Hin as [->|Hin]; [congruence|].
    rewrite IH; [reflexivity | eauto | eauto].
  - f_equal. eapply Hall; [left; reflexivity | exact Ea].
Qed.

(** ** Query 9: the guarded casts *)

Lemma forallb_digit_false (l : list ascii) :
  (exists c, In c l /\ Query9.is_digit c = false) -> forallb Query9.is_digit l = false.
Proof.
  intros [c [Hin Hc]].
  destruct (forallb Query9.is_digit l) eqn:E; [|reflexivity].
  rewrite forallb_forall in E. rewrite (E c Hin) in Hc. discriminate.
Qed.

(** Where [$] can match: the whole text when it does not end in a newline,
    the text less its last character when it does. *)
Lemma before_dollar_keep (l : list ascii) :
  Query9.is_newline (last l "0"%char) = false -> Query9.before_dollar l = l.
Proof.
  induction l as [|c l IH]; [reflexivity|].
  destruct l as [|c' l'].
  - simpl. now intros ->.
  - intro H. change (Query9.before_dollar (c :: c' :: l'))
      with (c :: Query9.before_dollar (c' :: l')).
    f_equal. apply IH. exact H.
Qed.

Lemma before_dollar_drop (l : list ascii) :
  l <> [] -> Query9.is_newline (last l "0"%char) = true ->
  l = Query9.before_dollar l ++ ["010"%char].
Proof.
  induction l as [|c l IH]; [congruence|]. intros _.
  destruct l as [|c' l'].
  - simpl. intro H. rewrite H. apply Ascii.eqb_eq in H. now subst c.
  - intro H. change (Query9.before_dollar (c :: c' :: l'))
      with (c :: Query9.before_dollar (c' :: l')).
    simpl. f_equal. apply IH; [discriminate | exact H].
Qed.

Lemma matches_run_plain (cls : ascii -> bool) (s : string) :
  Spec.final_newline s = false ->
  Query9.matches_run cls s =
  match list_ascii_of_string s with
  | [] => false
  | l => forallb cls l
  end.
Proof.
  unfold Spec.final_newline, Query9.matches_run. intro H.
  now rewrite (before_dollar_keep _ H).
Qed.

(** A text accepted through a final newline: the class covers all of it but
    that newline. *)
Lemma matches_run_newline (cls : ascii -> bool) (s : string) :
  Query9.matches_run cls s = true -> Spec.final_newline s = true ->
  exists body,
    list_ascii_of_string s = body ++ ["010"%char]
    /\ body <> [] /\ forallb cls body = true.
Proof.
  unfold Spec.final_newline, Query9.matches_run. intros Hm Hn.
  destruct (list_ascii_of_string s) as [|c l] eqn:E; [discriminate|].
  exists (Query9.before_dollar (c :: l)). split.
  - apply before_dollar_drop; [discriminate | exact Hn].
  - destruct (Query9.before_dollar (c :: l)); [discriminate|].
    split; [discriminate | exact Hm].
Qed.

Lemma matches_integer_digits (s : string) :
  Spec.has_non_digit s -> Spec.final_newline s = false ->
  Query9.matches_integer s = false.
Proof.
  intros H Hn. unfold Query9.matches_integer.
  rewrite (matches_run_plain _ _ Hn).
  destruct (list_ascii_of_string s) as [|c l] eqn:E; [reflexivity|].
  unfold Spec.has_non_digit in H. rewrite E in H.
  now apply forallb_digit_false.
Qed.

Lemma matches_integer_decimal (s : string) :
  Query9.matches_integer s = true -> Query9.matches_decimal s = true.
Proof.
  unfold Query9.matches_integer, Query9.matches_decimal, Query9.matches_run.
  destruct (Query9.before_dollar (list_ascii_of_string s)) as [|c l];
    [discriminate|].
  rewrite !forallb_forall. intros H x Hx. now rewrite (H x Hx).
Qed.

(** A text that fails the pattern gives null, without any conversion. *)
Lemma production_of_unmatched (input : field string) :
  Query9.regexMatch Query9.matches_decimal input = false ->
  Query9.production_of input = Ok Null.
Proof. unfold Query9.production_of. now intros ->. Qed.

Lemma employees_of_unmatched (input : field string) :
  Query9.regexMatch Query9.matches_integer input = false ->
  Query9.employees_of input = Ok Null.
Proof. unfold Query9.employees_of. now intros ->. Qed.

(** The rows of the result stand for the production records that have a
    statistics record of the same year; the others are dropped. *)
Lemma query9_rows (prod : list Uranium.t) (stats : list Stats.t)
  (rows : list Query9.row) :
  Query9.query9 prod stats = Ok rows ->
  forall r, In r rows <->
    exists u s, In u prod /\ In s stats /\ Stats.YEAR s = Uranium.Year u
                /\ Query9.project_stage (u, s) = Ok r.
Proof.
  unfold Query9.query9. intro H.
  destruct (map_result Query9.project_stage (Query9.join_stage prod stats))
    as [rs|e] eqn:E; simpl in H; [|discriminate].
  inversion H; subst. intro r. rewrite sort_by_In.
  rewrite (map_result_Ok _ _ _ E r). split.
  - intros [[u s] [Hin Hp]]. apply lookup_unwind_In in Hin.
    destruct Hin as (Hu & Hs & Hy). apply Z.eqb_eq in Hy. eauto 10.
  - intros (u & s & Hu & Hs & Hy & Hp). exists (u, s). split; [|exact Hp].
    apply lookup_unwind_In. repeat split; try assumption. now apply Z.eqb_eq.
Qed.

Lemma project_stage_fields (d : Uranium.t * Stats.t) (r : Query9.row) :
  Query9.project_stage d = Ok r ->
  Query9.Year r = Uranium.Year (fst d)
  /\ Query9.production_of (Uranium.mine_production (fst d))
     = Ok (Query9.production_million_lbs r)
  /\ Query9.employees_of (Uranium.Employment (fst d)) = Ok (Query9.employees r)
  /\ Query9.generation_mwh r = Stats.NUCLEAR_GENERATION (snd d).
Proof.
  unfold Query9.project_stage.
  destruct (Query9.production_of _) as [p|e]; simpl; [|discriminate].
  destruct (Query9.employees_of _) as [m|e]; simpl; [|discriminate].
  intro H. inversion H; subst. simpl. auto.
Qed.

Lemma digits_value_Some (l : list ascii) (acc : Z) :
  forallb Query9.is_digit l = true -> (0 <= acc)%Z ->
  exists n, Query9.digits_value acc l = Some n /\ (0 <= n)%Z.
Proof.
  revert acc. induction l as [|c l IH]; intros acc H Hacc; simpl.
  - eauto.
  - simpl in H. apply andb_true_iff in H. destruct H as [Hc Hl].
    rewrite Hc. apply IH; [exact Hl|].
    assert (0 <= Query9.digit_value c)%Z; [|lia].
    unfold Query9.digit_value.
    destruct c as [[] [] [] [] [] [] [] []]; try discriminate; simpl; lia.
Qed.

Lemma digits_value_None (l : list ascii) (acc : Z) :
  forallb Query9.is_digit l = false -> Query9.digits_value acc l = None.
Proof.
  revert acc. induction l as [|c l IH]; intros acc H; simpl in *; [discriminate|].
  destruct (Query9.is_digit c); [now apply IH | reflexivity].
Qed.

Lemma employees_of_non_digit (txt : string) :
  Spec.has_non_digit txt -> Spec.final_newline txt = false ->
  Query9.employees_of (Val txt) = Ok Null.
Proof.
  intros H Hn. apply employees_of_unmatched. simpl.
  now apply matches_integer_digits.
Qed.

(** [$toInt] does not take a final newline. *)
Lemma toInt_final_newline (txt : string) :
  Spec.final_newline txt = true -> Query9.toInt txt = Fail ConversionFailure.
Proof.
  unfold Spec.final_newline, Query9.toInt. intro Hn.
  destruct (list_ascii_of_string txt) as [|c l] eqn:E; [reflexivity|].
  rewrite digits_value_None; [reflexivity|].
  rewrite (before_dollar_drop (c :: l)); [|discriminate | exact Hn].
  rewrite forallb_app. simpl. apply andb_false_r.
Qed.

(** C10.  The integer-only guard of [employees] lets a run of digits with a
    final newline through: "100" followed by a newline matches [/^[0-9]+$/],
    [$toInt] fails on it and the whole query with it, where the claim has
    [employees] = null; so does every text that the pattern accepts through
    a final newline.  The rest of the claim holds: an Employment text with a
    non-digit character and no final newline gives null, no row of a result
    shows a number for a text with a non-digit character, the integer
    pattern accepts no text that the production pattern refuses, and "1.5"
    passes only the latter (production 1.5, employees null). *)
Theorem employees_guard_passes_final_newline :
  Spec.has_non_digit Cases.employment_newline
  /\ Query9.matches_integer Cases.employment_newline = true
  /\ Query9.employees_of (Val Cases.employment_newline) = Fail ConversionFailure
  /\ Query9.query9 Cases.uranium_newline Cases.stats = Fail ConversionFailure
  /\ (forall txt, Query9.matches_integer txt = true ->
                  Spec.final_newline txt = true ->
                  Query9.employees_of (Val txt) = Fail ConversionFailure)
  /\ (forall txt, Spec.has_non_digit txt -> Spec.final_newline txt = false ->
                  Query9.employees_of (Val txt) = Ok Null)
  /\ (forall txt, Query9.matches_integer txt = true ->
                  Query9.matches_decimal txt = true)
  /\ Query9.matches_decimal "1.5" = true
  /\ Query9.matches_integer "1.5" = false
  /\ Query9.production_of (Val "1.5"%string) = Ok (Val (dec 3 2))
  /\ Query9.employees_of (Val "1.5"%string) = Ok Null
  /\ (forall prod stats rows r,
        Query9.query9 prod stats = Ok rows -> In r rows ->
        exists u s,
          In u prod /\ In s stats /\ Stats.YEAR s = Uranium.Year u
          /\ Query9.Year r = Uranium.Year u
          /\ (forall txt, Uranium.Employment u = Val txt ->
                          Spec.has_non_digit txt ->
                          Query9.employees r = Null)).
Proof.
  assert (H5 : forall txt, Query9.matches_integer txt = true ->
                 Spec.final_newline txt = true ->
                 Query9.employees_of (Val txt) = Fail ConversionFailure).
  { intros txt Hm Hn. unfold Query9.employees_of. simpl.
    now rewrite Hm, (toInt_final_newline txt Hn). }
  split.
  { exists "010"%char. split; [simpl; auto | reflexivity]. }
  split; [reflexivity|].
  split; [reflexivity|].
  split; [vm_compute; reflexivity|].
  split; [exact H5|].
  split; [exact employees_of_non_digit|].
  split; [exact matches_integer_decimal|].
  split; [reflexivity|]. split; [reflexivity|].
  split.
  { unfold Query9.production_of. simpl.
    apply f_equal, f_equal, Qc_is_canon. reflexivity. }
  split; [reflexivity|].
  intros prod stats rows r Hq Hr.
  apply (query9_rows _ _ _ Hq) in Hr.
  destruct Hr as (u & s & Hu & Hs & Hy & Hp).
  apply project_stage_fields in Hp. simpl in Hp.
  destruct Hp as (HY & _ & He & _).
  exists u, s. repeat split; try assumption.
  intros txt Etxt Hnd. rewrite Etxt in He.
  destruct (Spec.final_newline txt) eqn:Hn.
  - destruct (Query9.matches_integer txt) eqn:Hm.
    + rewrite (H5 txt Hm Hn) in He. discriminate.
    + rewrite employees_of_unmatched in He; [now inversion He | exact Hm].
  - rewrite (employees_of_non_digit txt Hnd Hn) in He. now inversion He.
Qed.

(** What the guard does achieve: a row whose production or employment text
    fails its pattern shows null there, and a production record without
    statistics of its year has no row. *)
Lemma query9_unmatched_text_gives_null
  (prod : list Uranium.t) (stats : list Stats.t)
  (rows : list Query9.row) (r : Query9.row) :
  Query9.query9 prod stats = Ok rows -> In r rows ->
  exists u s,
    In u prod /\ In s stats /\ Stats.YEAR s = Uranium.Year u
    /\ Query9.Year r = Uranium.Year u
    /\ Query9.generation_mwh r = Stats.NUCLEAR_GENERATION s
    /\ (Query9.regexMatch Query9.matches_decimal (Uranium.mine_production u) = false ->
        Query9.production_million_lbs r = Null)
    /\ (Query9.regexMatch Query9.matches_integer (Uranium.Employment u) = false ->
        Query9.employees r = Null).
Proof.
  intros Hq Hr. apply (query9_rows _ _ _ Hq) in Hr.
  destruct Hr as (u & s & Hu & Hs & Hy & Hp).
  apply project_stage_fields in Hp. simpl in Hp.
  destruct Hp as (HY & Hprod & Hemp & Hgen).
  exists u, s. repeat split; try assumption.
  - intro H. rewrite (production_of_unmatched _ H) in Hprod. now inversion Hprod.
  - intro H. rewrite (employees_of_unmatched _ H) in Hemp. now inversion Hemp.
Qed.

Lemma toDouble_failure (txt : string) (e : error) :
  Query9.toDouble txt = Fail e -> e = ConversionFailure.
Proof.
  unfold Query9.toDouble.
  destruct (Query9.split_dot _) as [ip [fp|]].
  - destruct ip, fp; try congruence;
      repeat match goal with
             | |- context [match ?x with _ => _ end] => destruct x
             end; congruence.
  - destruct ip; try congruence;
      repeat match goal with
             | |- context [match ?x with _ => _ end] => destruct x
             end; congruence.
Qed.

Lemma toInt_failure (txt : string) (e : error) :
  Query9.toInt txt = Fail e -> e = ConversionFailure.
Proof.
  unfold Query9.toInt.
  repeat match goal with
         | |- context [match ?x with _ => _ end] => destruct x
         | |- context [if ?x then _ else _] => destruct x
         end; congruence.
Qed.

Lemma project_stage_failure (d : Uranium.t * Stats.t) (e : error) :
  Query9.project_stage d = Fail e -> e = ConversionFailure.
Proof.
  unfold Query9.project_stage, Query9.production_of, Query9.employees_of.
  destruct (Query9.regexMatch Query9.matches_decimal _);
    destruct (Uranium.mine_production (fst d)) as [| |t1]; simpl;
    try destruct (Query9.toDouble t1) eqn:E1; simpl;
    try (intro H; inversion H; subst; now apply toDouble_failure in E1);
    destruct (Query9.regexMatch Query9.matches_integer _);
    destruct (Uranium.Employment (fst d)) as [| |t2]; simpl;
    try destruct (Query9.toInt t2) eqn:E2; simpl;
    try discriminate;
    intro H; inversion H; subst; now apply toInt_failure in E2.
Qed.

(** Any production record with statistics of its year and a text that passes
    the pattern but is no numeral brings the whole query down. *)
Lemma query9_fails_when_conversion_fails
  (prod : list Uranium.t) (stats : list Stats.t)
  (u : Uranium.t) (s : Stats.t) (txt : string) :
  In u prod -> In s stats -> Stats.YEAR s = Uranium.Year u ->
  Uranium.mine_production u = Val txt ->
  Query9.matches_decimal txt = true ->
  Query9.toDouble txt = Fail ConversionFailure ->
  Query9.query9 prod stats = Fail ConversionFailure.
Proof.
  intros Hu Hs Hy Htxt Hm Hf. unfold Query9.query9.
  rewrite (map_result_first_failure _ _ ConversionFailure); [reflexivity| |].
  - exists (u, s). split.
    + apply lookup_unwind_In. repeat split; try assumption. now apply Z.eqb_eq.
    + unfold Query9.project_stage, Query9.production_of. simpl.
      rewrite Htxt. simpl. rewrite Hm, Hf. reflexivity.
  - intros d e _. apply project_stage_failure.
Qed.

(** C4.  The pattern [/^[0-9.]+$/] lets through texts that are not numerals:
    "1.2.3" matches it, [$toDouble] then fails and the whole query with it.
    Likewise a run of digits beyond the 32-bit range matches [/^[0-9]+$/]
    and fails in [$toInt]. *)
Theorem query9_fails_on_matching_text :
  Query9.matches_decimal "1.2.3" = true
  /\ Query9.query9
       [ {| Uranium.Year := 2020;
            Uranium.mine_production := Val "1.2.3"%string;
            Uranium.Employment := Val "100"%string |} ]
       [ {| Stats.YEAR := 2020; Stats.NUCLEAR_GENERATION := Val (dec 790 1) |} ]
     = Fail ConversionFailure
  /\ Query9.matches_integer "2147483648" = true
  /\ Query9.query9
       [ {| Uranium.Year := 2020;
            Uranium.mine_production := Val "4.1"%string;
            Uranium.Employment := Val "2147483648"%string |} ]
       [ {| Stats.YEAR := 2020; Stats.NUCLEAR_GENERATION := Val (dec 790 1) |} ]
     = Fail ConversionFailure.
Proof. repeat split; vm_compute; reflexivity. Qed.

(** ** Queries 6 and 8: the ratios *)



Lemma divide_nonzero (x y : Qc) :
  y <> zero -> Expr.divide (Val x) (Val y) = Ok (Val (x / y)).
Proof.
  intro H. simpl. destruct (Qc_eqb y zero) eqn:E; [|reflexivity].
  apply Qc_eqb_eq in E. contradiction.
Qed.

Lemma query8_match_stage (db : list Plant.t) (p : Plant.t) :
  In p (Query8.match_stage db) <->
  In p db /\ Plant.primary_fuel p = "Nuclear"%string
  /\ (exists g, Plant.generation_gwh_2017 p = Val g)
  /\ (exists e, Plant.estimated_generation_gwh_2017 p = Val e).
Proof.
  unfold Query8.match_stage. rewrite filter_In, !andb_true_iff, String.eqb_eq.
  destruct (Plant.generation_gwh_2017 p), (Plant.estimated_generation_gwh_2017 p);
    simpl; split; intros H; decompose [and ex] H; try discriminate;
    repeat split; eauto.
Qed.


(** ** Query 7: the two facets and their recombination *)

Lemma id_eqb_eq (a b : string * string) : Query7.id_eqb a b = true <-> a = b.
Proof.
  destruct a as [a1 a2], b as [b1 b2]. unfold Query7.id_eqb. simpl.
  rewrite andb_true_iff, !String.eqb_eq.
  split; [intros [-> ->]; reflexivity | intro H; inversion H; auto].
Qed.

Lemma NoDup_map_filter {A B} (f : A -> B) (P : A -> bool) (l : list A) :
  NoDup (map f l) -> NoDup (map f (filter P l)).
Proof.
  induction l as [|a l IH]; simpl; intro H; [constructor|].
  inversion H as [|? ? Hnin Hnd]; subst.
  destruct (P a); simpl; [|now apply IH].
  constructor; [|now apply IH].
  intro Hin. apply Hnin. apply in_map_iff in Hin.
  destruct Hin as [x [E Hx]]. apply filter_In in Hx.
  rewrite <- E. apply in_map. tauto.
Qed.

Lemma branch_In (fuel : string) (rate : Qc) (db : list Plant.t)
  (d : Query7.branch_doc) :
  In d (Query7.branch fuel rate db) <->
  (exists p, In p db /\ Plant.primary_fuel p = fuel
             /\ Query7.b_id d = (Plant.country p, Plant.country_long p))
  /\ zero < Spec.generation_of fuel (Query7.b_id d) db
  /\ Query7.b_gwh d = Spec.generation_of fuel (Query7.b_id d) db
  /\ Query7.b_deaths d = Query7.b_gwh d / dec 1000 1 * rate.
Proof.
  unfold Query7.branch. rewrite in_map_iff. split.
  - intros [[k g] [<- Hin]]. simpl.
    apply filter_In in Hin. destruct Hin as [Hin Hpos]. simpl in Hpos.
    apply Qc_ltb_lt in Hpos.
    apply in_map_iff in Hin. destruct Hin as [[k' b] [E Hin]].
    simpl in E. inversion E; subst k' g. clear E.
    apply (group_by_member _ _ id_eqb_eq) in Hin. destruct Hin as [Hb Hne].
    rewrite sum_is_total in Hpos |- *. subst b.
    repeat split; try assumption; try reflexivity.
    destruct (filter _ _) as [|p l] eqn:F in Hne; [congruence|].
    assert (Hp : In p (p :: l)) by now left.
    rewrite <- F in Hp. apply filter_In in Hp. destruct Hp as [Hp Hk].
    apply id_eqb_eq in Hk. apply filter_In in Hp. destruct Hp as [Hp Hf].
    apply String.eqb_eq in Hf. eauto.
  - intros ((p & Hp & Hf & Hid) & Hpos & Hg & Hd).
    exists (Query7.b_id d, Query7.b_gwh d). split.
    + destruct d as [i g dd]. simpl in *. now subst dd.
    + apply filter_In. simpl. split.
      * apply in_map_iff.
        exists (Query7.b_id d,
                filter (fun q => Query7.id_eqb (Query7.b_id d)
                                   (Plant.country q, Plant.country_long q))
                       (filter (fun q => String.eqb (Plant.primary_fuel q) fuel) db)).
        simpl. split.
        -- rewrite sum_is_total. now rewrite Hg.
        -- rewrite Hid.
           apply (group_by_complete Query7.id_eqb
                    (fun q => (Plant.country q, Plant.country_long q)) id_eqb_eq p).
           apply filter_In. split; [exact Hp | now apply String.eqb_eq].
      * apply Qc_ltb_lt. now rewrite Hg.
Qed.

Lemma branch_NoDup (fuel : string) (rate : Qc) (db : list Plant.t) :
  NoDup (map Query7.b_id (Query7.branch fuel rate db)).
Proof.
  unfold Query7.branch. rewrite map_map. simpl.
  apply NoDup_map_filter. rewrite map_map. simpl.
  apply (group_by_NoDup _ _ id_eqb_eq).
Qed.

Lemma first_solar_None (solar : list Query7.branch_doc) (n : Query7.branch_doc) :
  Query7.first_solar solar n = None <->
  forall s, In s solar -> fst (Query7.b_id s) <> fst (Query7.b_id n).
Proof.
  unfold Query7.first_solar.
  destruct (filter _ solar) as [|s0 l] eqn:F; split; intro H.
  - intros s Hs E. apply String.eqb_eq in E.
    assert (In s []) as []. rewrite <- F. apply filter_In. tauto.
  - reflexivity.
  - discriminate.
  - exfalso. assert (Hs : In s0 (s0 :: l)) by now left.
    rewrite <- F in Hs. apply filter_In in Hs. destruct Hs as [Hs E].
    apply String.eqb_eq in E. exact (H s0 Hs E).
Qed.

Lemma first_solar_Some (solar : list Query7.branch_doc) (n s : Query7.branch_doc) :
  Query7.first_solar solar n = Some s ->
  In s solar /\ fst (Query7.b_id s) = fst (Query7.b_id n).
Proof.
  unfold Query7.first_solar.
  destruct (filter _ solar) as [|s0 l] eqn:F; intro H; [discriminate|].
  inversion H; subst s0.
  assert (Hs : In s (s :: l)) by now left.
  rewrite <- F in Hs. apply filter_In in Hs. destruct Hs as [Hs E].
  apply String.eqb_eq in E. auto.
Qed.

Lemma combine_nuclear_side (solar : list Query7.branch_doc) (n : Query7.branch_doc) :
  Query7.country (Query7.combine solar n) = fst (Query7.b_id n)
  /\ Query7.nuclear_gwh (Query7.combine solar n) = Query7.b_gwh n
  /\ Query7.nuclear_deaths (Query7.combine solar n) = Query7.b_deaths n.
Proof.
  unfold Query7.combine.
  destruct (Query7.first_solar solar n) as [s|] eqn:E; simpl; auto.
  apply first_solar_Some in E. tauto.
Qed.

Lemma query7_rows (db : list Plant.t) (r : Query7.row) :
  In r (Query7.query7 db) <->
  exists n, In n (Query7.facet_nuclear db)
            /\ r = Query7.combine (Query7.facet_solar db) n.
Proof.
  unfold Query7.query7, sort_desc_num. rewrite sort_by_In, in_map_iff.
  split; intros [n [H1 H2]]; exists n; auto.
Qed.

(** C2 (as amended).  The recombination of query 7 runs over the nuclear
    facet: the result holds exactly one row per document of the nuclear
    facet (one per country, the keys being distinct).  A country of the
    nuclear facet without a document in the solar facet is emitted all the
    same, with [solar_gwh] and [solar_deaths] absent; with a solar document
    the row carries its values.  A country present in the solar facet only
    has no row. *)
Theorem query7_rows_follow_nuclear_facet (db : list Plant.t) :
  Permutation (Query7.query7 db)
    (map (Query7.combine (Query7.facet_solar db)) (Query7.facet_nuclear db))
  /\ NoDup (map Query7.b_id (Query7.facet_nuclear db))
  /\ (forall n, In n (Query7.facet_nuclear db) ->
      (forall s, In s (Query7.facet_solar db) ->
                 fst (Query7.b_id s) <> fst (Query7.b_id n)) ->
      exists r, In r (Query7.query7 db)
                /\ Query7.country r = fst (Query7.b_id n)
                /\ Query7.nuclear_gwh r = Query7.b_gwh n
                /\ Query7.solar_gwh r = Absent
                /\ Query7.solar_deaths r = Absent)
  /\ (forall n s, In n (Query7.facet_nuclear db) ->
      Query7.first_solar (Query7.facet_solar db) n = Some s ->
      exists r, In r (Query7.query7 db)
                /\ Query7.country r = fst (Query7.b_id n)
                /\ Query7.nuclear_gwh r = Query7.b_gwh n
                /\ Query7.solar_gwh r = Val (Query7.b_gwh s)
                /\ Query7.solar_deaths r = Val (Query7.b_deaths s))
  /\ (forall r, In r (Query7.query7 db) ->
      exists n, In n (Query7.facet_nuclear db)
                /\ Query7.country r = fst (Query7.b_id n))
  /\ (forall s, In s (Query7.facet_solar db) ->
      (forall n, In n (Query7.facet_nuclear db) ->
                 fst (Query7.b_id n) <> fst (Query7.b_id s)) ->
      forall r, In r (Query7.query7 db) ->
                Query7.country r <> fst (Query7.b_id s)).
Proof.
  assert (Hrows : forall r, In r (Query7.query7 db) ->
            exists n, In n (Query7.facet_nuclear db)
                      /\ Query7.country r = fst (Query7.b_id n)).
  { intros r Hr. apply query7_rows in Hr. destruct Hr as [n [Hn ->]].
    exists n. split; [exact Hn|]. apply combine_nuclear_side. }
  repeat apply conj.
  - unfold Query7.query7, sort_desc_num. apply sort_by_perm.
  - apply branch_NoDup.
  - intros n Hn Hno. exists (Query7.combine (Query7.facet_solar db) n).
    split; [apply query7_rows; eauto|].
    destruct (combine_nuclear_side (Query7.facet_solar db) n) as (H1 & H2 & _).
    repeat split; try assumption;
      apply first_solar_None in Hno; unfold Query7.combine; now rewrite Hno.
  - intros n s Hn Hs. exists (Query7.combine (Query7.facet_solar db) n).
    split; [apply query7_rows; eauto|].
    destruct (combine_nuclear_side (Query7.facet_solar db) n) as (H1 & H2 & _).
    repeat split; try assumption; unfold Query7.combine; now rewrite Hs.
  - exact Hrows.
  - intros s Hs Hno r Hr. destruct (Hrows r Hr) as [n [Hn ->]]. now apply Hno.
Qed.

(** C9 (as amended).  A country is in the nuclear (respectively solar) facet
    of query 7 exactly when it has a plant of that fuel and the sum of
    [estimated_generation_gwh_2017] over its plants of that fuel, nulls left
    out, is strictly positive.  A country left out of the nuclear facet has
    no row in the result.  A country left out of the solar facet only keeps
    its row, without the solar fields. *)
Theorem facet_keeps_positive_generation (db : list Plant.t) :
  (forall fuel rate d, In d (Query7.branch fuel rate db) ->
     zero < Query7.b_gwh d
     /\ Query7.b_gwh d = Spec.generation_of fuel (Query7.b_id d) db)
  /\ (forall fuel rate p, In p db -> Plant.primary_fuel p = fuel ->
     ((exists d, In d (Query7.branch fuel rate db)
                 /\ Query7.b_id d = (Plant.country p, Plant.country_long p))
      <-> zero < Spec.generation_of fuel (Plant.country p, Plant.country_long p) db))
  /\ (forall r, In r (Query7.query7 db) ->
      exists n, In n (Query7.facet_nuclear db)
                /\ Query7.country r = fst (Query7.b_id n)
                /\ zero < Query7.nuclear_gwh r)
  /\ (forall n, In n (Query7.facet_nuclear db) ->
      (forall s, In s (Query7.facet_solar db) ->
                 fst (Query7.b_id s) <> fst (Query7.b_id n)) ->
      exists r, In r (Query7.query7 db)
                /\ Query7.country r = fst (Query7.b_id n)
                /\ Query7.solar_gwh r = Absent).
Proof.
  repeat apply conj.
  - intros fuel rate d Hd. apply branch_In in Hd.
    destruct Hd as (_ & Hpos & Hg & _). rewrite Hg. auto.
  - intros fuel rate p Hp Hf. split.
    + intros [d [Hd Hid]]. apply branch_In in Hd.
      destruct Hd as (_ & Hpos & _). now rewrite Hid in Hpos.
    + intro Hpos.
      exists {| Query7.b_id := (Plant.country p, Plant.country_long p);
                Query7.b_gwh :=
                  Spec.generation_of fuel (Plant.country p, Plant.country_long p) db;
                Query7.b_deaths :=
                  Spec.generation_of fuel (Plant.country p, Plant.country_long p) db
                  / dec 1000 1 * rate |}.
      split; [|reflexivity]. apply branch_In. simpl.
      repeat split; try assumption. eauto.
  - intros r Hr. apply query7_rows in Hr. destruct Hr as [n [Hn ->]].
    exists n. split; [exact Hn|].
    destruct (combine_nuclear_side (Query7.facet_solar db) n) as (H1 & H2 & _).
    split; [exact H1|]. rewrite H2.
    apply branch_In in Hn. destruct Hn as (_ & Hpos & Hg & _). now rewrite Hg.
  - intros n Hn Hno. exists (Query7.combine (Query7.facet_solar db) n).
    split; [apply query7_rows; eauto|].
    split; [apply combine_nuclear_side|].
    apply first_solar_None in Hno. unfold Query7.combine. now rewrite Hno.
Qed.

(** ** Rounding *)

Lemma round_half_even_close (q : Qc) :
  q - dec 1 2 <= Q2Qc (inject_Z (Expr.round_half_even q))
  /\ Q2Qc (inject_Z (Expr.round_half_even q)) <= q + dec 1 2.
Proof.
  unfold Expr.round_half_even.
  pose proof (Qfloor_le q) as Hl. pose proof (Qlt_floor q) as Hu.
  set (f := Qfloor q) in *.
  rewrite inject_Z_plus in Hu. change (inject_Z 1) with (1 # 1)%Q in Hu.
  destruct (Qc_ltb (q - Q2Qc (inject_Z f)) (dec 1 2)) eqn:E1.
  - apply Qc_ltb_lt in E1. qc_to_q. split; lra.
  - destruct (Qc_ltb (dec 1 2) (q - Q2Qc (inject_Z f))) eqn:E2.
    + apply Qc_ltb_lt in E2. qc_to_q. rewrite inject_Z_plus.
      change (inject_Z 1) with (1 # 1)%Q. split; lra.
    + assert (H1 : ~ q - Q2Qc (inject_Z f) < dec 1 2).
      { intro H. apply Qc_ltb_lt in H. congruence. }
      assert (H2 : ~ dec 1 2 < q - Q2Qc (inject_Z f)).
      { intro H. apply Qc_ltb_lt in H. congruence. }
      clear E1 E2.
      destruct (Z.even f); qc_to_q; rewrite ?inject_Z_plus;
        change (inject_Z 1) with (1 # 1)%Q; split; lra.
Qed.

(** Rounding to two decimals moves a number by at most 0.005. *)
Lemma round_num_2_close (x : Qc) :
  x - dec 1 200 <= Expr.round_num x 2 /\ Expr.round_num x 2 <= x + dec 1 200.
Proof.
  unfold Expr.round_num.
  destruct (round_half_even_close (x * Expr.scale 2)) as [H1 H2].
  set (z := inject_Z (Expr.round_half_even (x * Expr.scale 2))) in *.
  change (Expr.scale 2) with (dec 100 1) in *.
  qc_to_q. clearbody z. change (/ 100)%Q with (1 # 100)%Q.
  split; lra.
Qed.

(** ** Query 3: the average and the threshold *)

Lemma avg_fold (l : list (field Qc)) (s : Qc) (n : Z) :
  fold_left Acc.avg_step l (s, n) =
  (s + Spec.total (Spec.non_null l),
   (n + Z.of_nat (List.length (Spec.non_null l)))%Z).
Proof.
  revert s n. induction l as [|a l IH]; intros s n; simpl.
  - f_equal; [unfold zero, dec; ring | lia].
  - destruct a; simpl; rewrite IH; simpl; f_equal; try ring; lia.
Qed.

(** [$avg] is the mean of the non-null values. *)
Lemma avg_is_mean (l : list (field Qc)) : Acc.avg l = Spec.mean l.
Proof.
  unfold Acc.avg, Spec.mean. rewrite avg_fold.
  destruct (Spec.non_null l) as [|x xs].
  - reflexivity.
  - replace (0 + Z.of_nat (List.length (x :: xs)))%Z
      with (Z.of_nat (List.length (x :: xs))) by lia.
    destruct (Z.of_nat (List.length (x :: xs)) =? 0)%Z eqn:E.
    + apply Z.eqb_eq in E. simpl in E. lia.
    + unfold zero, dec. now rewrite Qcplus_0_l.
Qed.

Lemma group_by_unit_fold {A} (l b : list A) :
  fold_left (fun gs a => bucket_add (fun _ _ : unit => true) tt a gs) l [(tt, b)]
  = [(tt, b ++ l)].
Proof.
  revert b. induction l as [|a l IH]; intro b; simpl.
  - now rewrite app_nil_r.
  - rewrite IH. now rewrite <- app_assoc.
Qed.

Lemma group_by_unit {A} (l : list A) :
  group_by (fun _ _ : unit => true) (fun _ => tt) l =
  match l with [] => [] | _ => [(tt, l)] end.
Proof.
  destruct l as [|a l]; [reflexivity|].
  unfold group_by. simpl. apply (group_by_unit_fold l [a]).
Qed.

Lemma globalAvg_value (db : list World.t) :
  Query3.globalAvg db =
  match Query3.match_stage db with
  | [] => Fail UndefinedProperty
  | docs => Ok (Spec.mean (map World.share_of_electricity_pct docs))
  end.
Proof.
  unfold Query3.globalAvg. rewrite group_by_unit.
  destruct (Query3.match_stage db); [reflexivity|].
  simpl snd. now rewrite avg_is_mean.
Qed.

(** C6 (as amended).  The threshold [globalAvg] of query 3 is the average of
    [share_of_electricity_pct] recomputed directly over the rows of 2023,
    null shares left out (given that there is such a row).  For every row of
    the result the average of its entity, before rounding, is strictly
    greater than the threshold; the [avg_nuclear_share] shown is that
    average rounded to two decimals, which is greater than the threshold
    less 0.005. *)
Theorem query3_threshold_and_rows (db : list World.t) :
  (Query3.match_stage db <> [] ->
   Query3.globalAvg db =
   Ok (Spec.mean (map World.share_of_electricity_pct
                    (filter (fun d => (World.Year d =? 2023)%Z) db))))
  /\ (forall rows r, Query3.query3 db = Ok rows -> In r rows ->
      exists g a,
        Query3.globalAvg db = Ok (Val g)
        /\ Spec.mean (map World.share_of_electricity_pct
             (filter (fun d => String.eqb (Query3._id r) (World.Entity d))
                (filter (fun d => (World.Year d =? 2023)%Z) db))) = Val a
        /\ g < a
        /\ Query3.avg_nuclear_share r = Val (Expr.round_num a 2)
        /\ g - dec 1 200 < Expr.round_num a 2).
Proof.
  split.
  - intro H. rewrite globalAvg_value.
    destruct (Query3.match_stage db) eqn:E; [congruence|].
    rewrite <- E. reflexivity.
  - intros rows r Hq Hr. unfold Query3.query3 in Hq.
    destruct (Query3.globalAvg db) as [t|e] eqn:Eg; simpl in Hq; [|discriminate].
    inversion Hq; subst rows. clear Hq.
    unfold Query3.pipeline, sort_desc in Hr. apply sort_by_In in Hr.
    apply in_map_iff in Hr. destruct Hr as [grp [<- Hin]].
    apply filter_In in Hin. destruct Hin as [Hin Hgt].
    unfold Query3.group_stage in Hin. apply in_map_iff in Hin.
    destruct Hin as [[k b] [<- Hin]]. simpl in *.
    apply (group_by_member _ _ string_eqb_eq) in Hin. destruct Hin as [-> _].
    rewrite avg_is_mean in Hgt |- *.
    unfold Query3.match_stage in *.
    destruct t as [| |g]; simpl in Hgt; try discriminate.
    destruct (Spec.mean _) as [| |a]; simpl in Hgt; try discriminate.
    apply Qc_ltb_lt in Hgt.
    exists g, a. repeat split; try assumption; try reflexivity.
    destruct (round_num_2_close a) as [Hlow _].
    apply Qclt_le_trans with (y := a - dec 1 200); [|exact Hlow].
    clear Hlow. qc_to_q. lra.
Qed.

(** ** Query 4: the largest increase *)

Lemma query4_match_stage (db : list World.t) (d : World.t) :
  In d (Query4.match_stage db) <->
  In d db /\ (2015 < World.Year d)%Z /\ World.Entity d = "Canada"%string.
Proof.
  unfold Query4.match_stage.
  rewrite filter_In, andb_true_iff, Z.ltb_lt, String.eqb_eq. tauto.
Qed.

Lemma group_by_single_fold {A} (key : A -> string) (k : string) (l b : list A) :
  (forall a, In a l -> key a = k) ->
  fold_left (fun gs a => bucket_add String.eqb (key a) a gs) l [(k, b)]
  = [(k, b ++ l)].
Proof.
  revert b. induction l as [|a l IH]; intros b H; simpl.
  - now rewrite app_nil_r.
  - rewrite (H a (or_introl eq_refl)), String.eqb_refl.
    rewrite IH; [now rewrite <- app_assoc | intros; apply H; now right].
Qed.

Lemma group_by_single_key {A} (key : A -> string) (k : string) (l : list A) :
  (forall a, In a l -> key a = k) ->
  group_by String.eqb key l = match l with [] => [] | _ => [(k, l)] end.
Proof.
  destruct l as [|a l]; intro H; [reflexivity|].
  unfold group_by. simpl. rewrite (H a (or_introl eq_refl)).
  apply (group_by_single_fold key k l [a]). intros; apply H; now right.
Qed.

Lemma shift_from_In (l : list World.t) (p0 : field Qc) (d : World.t) (pv : field Qc) :
  In (d, pv) (Query4.shift_from p0 l) <->
  (exists l2, l = d :: l2 /\ pv = p0) \/
  (exists l1 d' l2, l = l1 ++ d' :: d :: l2
                    /\ pv = World.electricity_from_nuclear_twh d').
Proof.
  revert p0. induction l as [|a l IH]; intro p0; simpl.
  - split; [contradiction|].
    intros [(l2 & E & _)|(l1 & d' & l2 & E & _)]; [discriminate|].
    destruct l1; discriminate.
  - rewrite IH. split.
    + intros [E|[(l2 & -> & ->)|(l1 & d' & l2 & -> & ->)]].
      * inversion E; subst. left. eauto.
      * right. exists [], a, l2. auto.
      * right. exists (a :: l1), d', l2. auto.
    + intros [(l2 & E & ->)|(l1 & d' & l2 & E & ->)].
      * inversion E; subst. now left.
      * right. destruct l1 as [|x l1]; simpl in E; inversion E; subst.
        -- left. eauto.
        -- right. eauto.
Qed.

Lemma max_fold_spec (l : list (field Qc)) (init : field Qc) :
  (forall y, init = Val y ->
     exists m, fold_left Acc.max_step l init = Val m /\ y <= m)
  /\ (forall x, In (Val x) l ->
     exists m, fold_left Acc.max_step l init = Val m /\ x <= m)
  /\ (forall m, fold_left Acc.max_step l init = Val m ->
     init = Val m \/ In (Val m) l).
Proof.
  revert init. induction l as [|a l IH]; intro init; simpl.
  - repeat split.
    + intros y ->. exists y. split; [reflexivity | apply Qcle_refl].
    + contradiction.
    + auto.
  - destruct (IH (Acc.max_step init a)) as (IH1 & IH2 & IH3).
    assert (Hstep : forall x, a = Val x ->
              exists y', Acc.max_step init a = Val y' /\ x <= y'
                         /\ (forall y, init = Val y -> y <= y')).
    { intros x ->. destruct init as [| |y]; simpl.
      - exists x. repeat split; try apply Qcle_refl; discriminate.
      - exists x. repeat split; try apply Qcle_refl; discriminate.
      - destruct (Qc_ltb y x) eqn:E.
        + apply Qc_ltb_lt in E. exists x. repeat split; [apply Qcle_refl|].
          intros y0 Hy. inversion Hy; subst. now apply Qclt_le_weak.
        + exists y. repeat split.
          * apply Qcnot_lt_le. intro H. apply Qc_ltb_lt in H. congruence.
          * intros y0 Hy. inversion Hy; subst. apply Qcle_refl. }
    repeat split.
    + intros y ->. destruct a as [| |x]; simpl in *; try (apply IH1; reflexivity).
      destruct (Hstep x eq_refl) as (y' & E & _ & Hy).
      destruct (IH1 y' E) as (m & Hm & Hle). exists m. split; [exact Hm|].
      eapply Qcle_trans; [apply Hy; reflexivity | exact Hle].
    + intros x [->|Hin]; [|now apply IH2].
      destruct (Hstep x eq_refl) as (y' & E & Hx & _).
      destruct (IH1 y' E) as (m & Hm & Hle). exists m. split; [exact Hm|].
      eapply Qcle_trans; eassumption.
    + intros m Hm. destruct (IH3 m Hm) as [E|Hin]; [|auto].
      destruct a as [| |x]; simpl in E; auto.
      destruct init as [| |y]; simpl in E; auto.
      destruct (Qc_ltb y x); auto.
Qed.

Lemma Zleb_total (a b : World.t) :
  (World.Year a <=? World.Year b)%Z = false ->
  (World.Year b <=? World.Year a)%Z = true.
Proof. rewrite Z.leb_gt, Z.leb_le. lia. Qed.

Lemma query4_rows_canada (db : list World.t) (d : World.t) :
  In d (Query4.sort_year (Query4.match_stage db)) ->
  In d db /\ (2015 < World.Year d)%Z /\ World.Entity d = "Canada"%string.
Proof.
  unfold Query4.sort_year. rewrite sort_by_In. apply query4_match_stage.
Qed.

Lemma positive_docs_In (db : list World.t) (d : Query4.doc) :
  In d (Spec.positive_docs db) <->
  exists prev cur pv cv,
    Spec.adjacent prev cur (Query4.sort_year (Query4.match_stage db))
    /\ World.electricity_from_nuclear_twh prev = Val pv
    /\ World.electricity_from_nuclear_twh cur = Val cv
    /\ zero < cv - pv
    /\ d = {| Query4.root := cur;
              Query4.prev_year_generation := Val pv;
              Query4.d_generation_difference := Val (cv - pv) |}.
Proof.
  unfold Spec.positive_docs, Query4.positive_stage.
  rewrite filter_In, in_map_iff. split.
  - intros [[[cur pvf] [<- Hin]] Hgt].
    unfold Query4.add_difference in *. simpl in *.
    destruct (World.electricity_from_nuclear_twh cur) as [| |cv] eqn:Ec;
      try discriminate.
    destruct pvf as [| |pv]; try discriminate.
    simpl in Hgt. apply Qc_ltb_lt in Hgt.
    apply shift_from_In in Hin.
    destruct Hin as [(l2 & _ & E)|(l1 & prev & l2 & E & Epv)]; [discriminate|].
    exists prev, cur, pv, cv. repeat split; auto.
    exists l1, l2. exact E.
  - intros (prev & cur & pv & cv & (l1 & l2 & E) & Ep & Ec & Hpos & ->).
    split.
    + exists (cur, Val pv). split.
      * unfold Query4.add_difference. simpl. now rewrite Ec.
      * apply shift_from_In. right. exists l1, prev, l2. auto.
    + simpl. now apply Qc_ltb_lt.
Qed.

Lemma window_single_partition (rows : list World.t) :
  (forall a, In a rows -> World.Entity a = "Canada"%string) ->
  ordered (fun a b => (World.Year a <=? World.Year b)%Z) rows ->
  Query4.window_stage rows = Query4.shift_from Null rows.
Proof.
  intros Hk Ho. unfold Query4.window_stage.
  rewrite (group_by_single_key World.Entity "Canada" rows Hk).
  destruct rows as [|a rows]; [reflexivity|].
  cbn [flat_map snd]. rewrite app_nil_r. f_equal.
  now apply sort_by_ordered_id.
Qed.

Lemma query4_unfold (db : list World.t) :
  Query4.query4 db =
  map Query4.project_stage
    (filter (fun d => Expr.eq (Query4.d_generation_difference d)
                        (Acc.max (map Query4.d_generation_difference (Spec.positive_docs db))))
       (Spec.positive_docs db)).
Proof.
  unfold Query4.query4. f_equal.
  assert (Hw : Query4.window_stage (Query4.sort_year (Query4.match_stage db)) =
               Query4.shift_from Null (Query4.sort_year (Query4.match_stage db))).
  { apply window_single_partition.
    - intros a Ha. now apply query4_rows_canada in Ha.
    - apply sort_by_is_ordered. exact Zleb_total. }
  rewrite Hw. fold (Spec.positive_docs db).
  unfold Query4.argmax_stage.
  rewrite (group_by_single_key (fun d => World.Entity (Query4.root d)) "Canada"
             (Spec.positive_docs db)).
  - destruct (Spec.positive_docs db) eqn:E; [reflexivity|].
    cbn [flat_map snd]. now rewrite app_nil_r.
  - intros d Hd. apply positive_docs_In in Hd.
    destruct Hd as (prev & cur & pv & cv & (l1 & l2 & E) & _ & _ & _ & ->).
    simpl. apply (query4_rows_canada db). rewrite E.
    apply in_or_app. right. right. now left.
Qed.


(** *** Records of consecutive years *)






(** ** Examples *)

Ltac qc_eq :=
  repeat match goal with
         | |- @eq Qc _ _ => apply Qc_is_canon; vm_compute; reflexivity
         | |- _ => reflexivity
         | |- _ => f_equal
         end.



(** C2, the claim as stated fails: France, present in the nuclear facet only,
    has a row, with the solar fields absent; Spain, present in the solar
    facet only, has none. *)
Lemma nuclear_only_country_is_kept :
  map Query7.b_id (Query7.facet_solar Sample.plants_one_sided)
    = [("ESP", "Spain")]%string
  /\ map Query7.country (Query7.query7 Sample.plants_one_sided) = ["FRA"%string]
  /\ map Query7.solar_gwh (Query7.query7 Sample.plants_one_sided) = [Absent]
  /\ map Query7.solar_deaths (Query7.query7 Sample.plants_one_sided) = [Absent].
Proof. repeat split; vm_compute; reflexivity. Qed.

(** C9, the claim as stated fails: France's solar generation sums to zero, so
    France is left out of the solar facet, yet it stays in the result. *)
Lemma zero_solar_country_is_kept :
  Query7.facet_solar Sample.plants_zero_solar = []
  /\ map Query7.country (Query7.query7 Sample.plants_zero_solar) = ["FRA"%string]
  /\ map Query7.solar_gwh (Query7.query7 Sample.plants_zero_solar) = [Absent].
Proof. repeat split; vm_compute; reflexivity. Qed.


(** C6, the claim as stated fails: the threshold is 10.001, Finland's average
    of 10.004 passes the filter and is shown as 10, which is not greater
    than the threshold. *)
Lemma rounded_share_below_threshold :
  Query3.globalAvg Sample.world_2023 = Ok (Val (dec 10001 1000))
  /\ Query3.query3 Sample.world_2023 =
     Ok [ {| Query3._id := "Finland"%string;
             Query3.avg_nuclear_share := Val (dec 10 1) |} ]
  /\ dec 10 1 < dec 10001 1000.
Proof.
  repeat apply conj.
  - vm_compute. qc_eq.
  - vm_compute. qc_eq.
  - vm_compute. reflexivity.
Qed.

(** Query 5 on the sample: the row of the band of latitude 47, longitude 2. *)
Lemma band_sample :
  exists p x y,
    In p Sample.plants_one_sided /\ Plant.primary_fuel p = "Nuclear"%string
    /\ Plant.latitude p = Val x /\ Plant.longitude p = Val y
    /\ Val "45°–50°"%string = Query5.band (Val x)
    /\ Val "0°–5°"%string = Query5.band (Val y).
Proof.
  apply (proj2 (proj2 (proj2 (proj2 (proj2 (proj2 (proj2 (proj2
           (band_lower_is_floor zero Sample.plants_one_sided)))))))))
    with (r := {| Query5.lat_band := Val "45°–50°"%string;
                  Query5.lon_band := Val "0°–5°"%string;
                  Query5.plant_count := 1;
                  Query5.total_capacity_mw := dec 900 1;
                  Query5.countries_in_band := "France"%string |}).
  vm_compute. left. qc_eq.
Defined.

(** Query 10 on the sample: the row of 2020; 2021 has no price and no row. *)
Lemma cost_sample :
  In {| Query10.year := 2020;
        Query10.nuclear_generation := Val (dec 790 1);
        Query10.uranium_needed_pounds :=
          Val (Expr.round_num (dec 790 1 * Query10.lbs_per_mwh) 2);
        Query10.uranium_price_usd_per_lb := Val (dec 3341 100);
        Query10.total_uranium_cost_usd :=
          Val (Expr.round_num (dec 790 1 * Query10.lbs_per_mwh * dec 3341 100) 2) |}
     (Query10.query10 Sample.stats_2020 Sample.prices_2020).
Proof.
  apply (proj1 (cost_uses_unrounded_quantity Sample.stats_2020 Sample.prices_2020 _)).
  exists {| Stats.YEAR := 2020; Stats.NUCLEAR_GENERATION := Val (dec 790 1) |},
         {| Price.Delivery_year := 2020; Price.Total_purchased := Val (dec 3341 100) |},
         (dec 790 1), (dec 3341 100).
  simpl. auto 10.
Defined.

(** A thousands separator makes the Employment text null. *)
Lemma employees_sample : Query9.employees_of (Val "1,100"%string) = Ok Null.
Proof.
  apply employees_of_non_digit; [|reflexivity].
  exists ","%char. split; [simpl; auto | reflexivity].
Qed.

(** Query 7 on the sample: the row of France, without solar fields. *)
Lemma query7_sample :
  exists r, In r (Query7.query7 Sample.plants_one_sided)
            /\ Query7.country r = "FRA"%string
            /\ Query7.nuclear_gwh r = dec 100 1
            /\ Query7.solar_gwh r = Absent
            /\ Query7.solar_deaths r = Absent.
Proof.
  apply (proj1 (proj2 (proj2 (query7_rows_follow_nuclear_facet Sample.plants_one_sided)))
           {| Query7.b_id := ("FRA", "France")%string;
              Query7.b_gwh := dec 100 1;
              Query7.b_deaths := dec 100 1 / dec 1000 1 * dec 7 100 |}).
  - vm_compute. left. qc_eq.
  - intros s Hs. vm_compute in Hs. destruct Hs as [<-|[]]. simpl. discriminate.
Defined.

(** Query 7 on the sample with a solar generation of zero. *)
Lemma facet_sample :
  exists r, In r (Query7.query7 Sample.plants_zero_solar)
            /\ Query7.country r = "FRA"%string
            /\ Query7.solar_gwh r = Absent.
Proof.
  apply (proj2 (proj2 (proj2 (facet_keeps_positive_generation Sample.plants_zero_solar)))
           {| Query7.b_id := ("FRA", "France")%string;
              Query7.b_gwh := dec 100 1;
              Query7.b_deaths := dec 100 1 / dec 1000 1 * dec 7 100 |}).
  - vm_compute. left. qc_eq.
  - intros s Hs. vm_compute in Hs. destruct Hs.
Defined.

(** Query 3 on the sample: Finland's average is above the threshold before
    rounding. *)
Lemma query3_sample :
  exists g a,
    Query3.globalAvg Sample.world_2023 = Ok (Val g)
    /\ Spec.mean (map World.share_of_electricity_pct
         (filter (fun d => String.eqb "Finland" (World.Entity d))
            (filter (fun d => (World.Year d =? 2023)%Z) Sample.world_2023))) = Val a
    /\ g < a
    /\ Val (dec 10 1) = Val (Expr.round_num a 2)
    /\ g - dec 1 200 < Expr.round_num a 2.
Proof.
  apply (proj2 (query3_threshold_and_rows Sample.world_2023)
           [ {| Query3._id := "Finland"%string;
                Query3.avg_nuclear_share := Val (dec 10 1) |} ]
           {| Query3._id := "Finland"%string;
              Query3.avg_nuclear_share := Val (dec 10 1) |}).
  - vm_compute. qc_eq.
  - left. reflexivity.
Defined.


(** With a gap in the years the difference is taken to the record just
    before all the same: from records of 2016 and 2018 alone, the row of 2018
    shows the increase since 2016. *)
Lemma gap_in_years_sample :
  Query4.query4 Cases.world_gap =
  [ {| Query4.Entity := "Canada"%string;
       Query4.Year := 2018;
       Query4.total_nuclear_generation := Val (dec 130 1);
       Query4.generation_difference := Val (dec 30 1) |} ].
Proof. vm_compute. qc_eq. Qed.

(** * Further properties of the queries *)

(** ** Counting with [$sum: 1] *)

Lemma sum_Z_app (l1 l2 : list Z) :
  Aux.sum_Z (l1 ++ l2) = (Aux.sum_Z l1 + Aux.sum_Z l2)%Z.
Proof. induction l1 as [|x l1 IH]; simpl; [reflexivity | rewrite IH; lia]. Qed.

Lemma sum_Z_perm (l1 l2 : list Z) :
  Permutation l1 l2 -> Aux.sum_Z l1 = Aux.sum_Z l2.
Proof. induction 1; simpl; lia. Qed.

Lemma count_of_buckets {A K} (gs : list (K * list A)) :
  Aux.sum_Z (map (fun g => Z.of_nat (List.length (snd g))) gs) =
  Z.of_nat (List.length (List.concat (map snd gs))).
Proof.
  induction gs as [|[k b] gs IH]; simpl; [reflexivity|].
  rewrite IH, length_app. lia.
Qed.

Lemma query1_rows (db : list Plant.t) :
  Permutation (Query1.query1 db) (map Query1.project_stage (Query1.group_stage db)).
Proof. unfold Query1.query1, sort_desc_num. apply sort_by_perm. Qed.

Lemma query5_rows (db : list Plant.t) :
  Permutation (Query5.query5 db)
    (Query5.group_stage (map Query5.add_bands (Query5.match_stage db))).
Proof. unfold Query5.query5, sort_desc_num. apply sort_by_perm. Qed.

(** X1.  The counts of [$sum: 1] cover the input exactly once: query 1 has
    one row per distinct fuel, every fuel of the collection has its row, each
    row counts the plants of its fuel (at least one), and the counts add up
    to the number of plants; in query 5 the counts of the bands add up to the
    number of nuclear plants with both coordinates, and no band is empty. *)
Theorem plant_counts_cover_input (db : list Plant.t) :
  Aux.sum_Z (map Query1.number_of_plants (Query1.query1 db))
    = Z.of_nat (List.length db)
  /\ NoDup (map Query1._id (Query1.query1 db))
  /\ (forall p, In p db ->
      exists r, In r (Query1.query1 db) /\ Query1._id r = Plant.primary_fuel p)
  /\ (forall r, In r (Query1.query1 db) ->
      Query1.number_of_plants r =
        Z.of_nat (List.length
          (filter (fun p => String.eqb (Query1._id r) (Plant.primary_fuel p)) db))
      /\ (1 <= Query1.number_of_plants r)%Z)
  /\ Aux.sum_Z (map Query5.plant_count (Query5.query5 db))
     = Z.of_nat (List.length (Query5.match_stage db))
  /\ (forall r, In r (Query5.query5 db) -> (1 <= Query5.plant_count r)%Z).
Proof.
  repeat apply conj.
  - rewrite (sum_Z_perm _ _ (Permutation_map _ (query1_rows db))).
    unfold Query1.group_stage. rewrite !map_map. simpl.
    rewrite (count_of_buckets (group_by String.eqb Plant.primary_fuel db)).
    f_equal. apply Permutation_length. apply (group_by_perm _ _ string_eqb_eq).
  - apply (Permutation_NoDup (Permutation_sym (Permutation_map _ (query1_rows db)))).
    unfold Query1.group_stage. rewrite !map_map. simpl.
    apply (group_by_NoDup _ _ string_eqb_eq).
  - intros p Hp.
    pose proof (group_by_complete String.eqb Plant.primary_fuel string_eqb_eq p db Hp) as Hg.
    eexists. split.
    + apply (Permutation_in _ (Permutation_sym (query1_rows db))).
      apply in_map. unfold Query1.group_stage. apply in_map_iff.
      eexists. split; [reflexivity | exact Hg].
    + reflexivity.
  - intros r Hr. apply (Permutation_in _ (query1_rows db)) in Hr.
    apply in_map_iff in Hr. destruct Hr as [g [<- Hg]].
    unfold Query1.group_stage in Hg. apply in_map_iff in Hg.
    destruct Hg as [[k b] [<- Hin]]. simpl.
    apply (group_by_member _ _ string_eqb_eq) in Hin. destruct Hin as [Hb Hne].
    rewrite <- Hb. split; [reflexivity|].
    destruct b; [congruence | simpl; lia].
  - rewrite (sum_Z_perm _ _ (Permutation_map _ (query5_rows db))).
    unfold Query5.group_stage. rewrite !map_map. simpl.
    rewrite (count_of_buckets
               (group_by Query5.key_eqb
                  (fun d => (Query5.d_lat_band d, Query5.d_lon_band d))
                  (map Query5.add_bands (Query5.match_stage db)))).
    f_equal. rewrite <- (length_map Query5.add_bands (Query5.match_stage db)).
    apply Permutation_length. apply (group_by_perm _ _ key_eqb_eq).
  - intros r Hr. apply (Permutation_in _ (query5_rows db)) in Hr.
    unfold Query5.group_stage in Hr. apply in_map_iff in Hr.
    destruct Hr as [[k b] [<- Hin]]. simpl.
    apply (group_by_member _ _ key_eqb_eq) in Hin. destruct Hin as [_ Hne].
    destruct b; [congruence | simpl; lia].
Qed.

(** ** The order left by [$sort] and the cut of [$limit] *)

Section OrderFacts.

Context {A : Type} (leb : A -> A -> bool).

Lemma ordered_tail (a : A) (l : list A) : ordered leb (a :: l) -> ordered leb l.
Proof. simpl. tauto. Qed.

Lemma ordered_firstn (n : nat) (l : list A) :
  ordered leb l -> ordered leb (firstn n l).
Proof.
  revert l. induction n as [|n IH]; intros l H; [exact I|].
  destruct l as [|a l]; [exact I|].
  simpl firstn. destruct H as [Hab Hl]. specialize (IH l Hl).
  simpl. split; [|exact IH].
  destruct n; [simpl; exact I|].
  destruct l as [|b l]; [exact I | exact Hab].
Qed.

Hypothesis leb_trans :
  forall a b c, leb a b = true -> leb b c = true -> leb a c = true.

Lemma ordered_head (a : A) (l : list A) :
  ordered leb (a :: l) -> forall b, In b l -> leb a b = true.
Proof.
  revert a. induction l as [|c l IH]; intros a H b Hb; [contradiction|].
  destruct H as [Hac Hl]. destruct Hb as [->|Hb]; [exact Hac|].
  apply leb_trans with (b := c); [exact Hac|]. now apply IH.
Qed.

Lemma ordered_app_split (l1 l2 : list A) :
  ordered leb (l1 ++ l2) ->
  forall a b, In a l1 -> In b l2 -> leb a b = true.
Proof.
  induction l1 as [|x l1 IH]; intros H a b Ha Hb; [contradiction|].
  destruct Ha as [->|Ha].
  - apply (ordered_head a (l1 ++ l2) H). apply in_or_app. now right.
  - apply IH; try assumption. exact (ordered_tail _ _ H).
Qed.

End OrderFacts.

Lemma desc_num_total {A} (key : A -> Qc) (a b : A) :
  Aux.desc_num key a b = false -> Aux.desc_num key b a = true.
Proof.
  unfold Aux.desc_num, Qc_leb. intro H.
  apply Qle_bool_iff. apply Qlt_le_weak. apply Qnot_le_lt.
  intro Hle. apply Qle_bool_iff in Hle. congruence.
Qed.

Lemma desc_num_trans {A} (key : A -> Qc) (a b c : A) :
  Aux.desc_num key a b = true -> Aux.desc_num key b c = true ->
  Aux.desc_num key a c = true.
Proof.
  unfold Aux.desc_num, Qc_leb. rewrite !Qle_bool_iff. intros H1 H2.
  eapply Qle_trans; eassumption.
Qed.

Lemma desc_field_total {A} (key : A -> field Qc) (a b : A) :
  Aux.desc_field key a b = false -> Aux.desc_field key b a = true.
Proof.
  unfold Aux.desc_field, field_leb.
  destruct (key a) as [| |x], (key b) as [| |y]; try reflexivity; try discriminate.
  unfold Qc_leb. intro H.
  apply Qle_bool_iff. apply Qlt_le_weak. apply Qnot_le_lt.
  intro Hle. apply Qle_bool_iff in Hle. congruence.
Qed.

Lemma desc_Z_total {A} (key : A -> Z) (a b : A) :
  Aux.desc_Z key a b = false -> Aux.desc_Z key b a = true.
Proof. unfold Aux.desc_Z. rewrite Z.leb_gt, Z.leb_le. lia. Qed.

Lemma NoDup_firstn {A} (n : nat) (l : list A) : NoDup l -> NoDup (firstn n l).
Proof.
  revert l. induction n as [|n IH]; intros l H; [constructor|].
  destruct l as [|a l]; [constructor|].
  inversion H as [|? ? Hnin Hnd]; subst. simpl. constructor; [|now apply IH].
  intro Hin. apply Hnin. rewrite <- (firstn_skipn n l). apply in_or_app. now left.
Qed.

(** X2.  Query 2 shows at most ten rows, in descending order of total
    capacity, and they are the leading ones: no country left out has a
    greater total than a country shown.  Each row is a distinct country that
    has a nuclear plant. *)
Theorem query2_leading_ten (db : list Plant.t) :
  (List.length (Query2.query2 db) <= 10)%nat
  /\ ordered (Aux.desc_num Query2.total_nuclear_capacity_mw) (Query2.query2 db)
  /\ (exists rest,
        Permutation (Query2.query2 db ++ rest)
          (map Query2.project_stage (Query2.group_stage (Query2.match_stage db)))
        /\ forall r r', In r (Query2.query2 db) -> In r' rest ->
             Query2.total_nuclear_capacity_mw r'
             <= Query2.total_nuclear_capacity_mw r)
  /\ NoDup (map Query2._id (Query2.query2 db))
  /\ (forall r, In r (Query2.query2 db) ->
      exists p, In p db /\ Plant.primary_fuel p = "Nuclear"%string
                /\ Plant.country_long p = Query2._id r).
Proof.
  set (sorted := sort_desc_num Query2.total_nuclear_capacity_mw
                   (map Query2.project_stage
                      (Query2.group_stage (Query2.match_stage db)))).
  assert (Hord : ordered (Aux.desc_num Query2.total_nuclear_capacity_mw) sorted).
  { apply sort_by_is_ordered. apply desc_num_total. }
  assert (Hperm : Permutation sorted
            (map Query2.project_stage (Query2.group_stage (Query2.match_stage db)))).
  { apply sort_by_perm. }
  assert (Hq : Query2.query2 db = firstn 10 sorted) by reflexivity.
  assert (Hsub : forall r, In r (Query2.query2 db) ->
            In r (map Query2.project_stage
                    (Query2.group_stage (Query2.match_stage db)))).
  { intros r Hr. apply (Permutation_in _ Hperm). rewrite Hq in Hr.
    rewrite <- (firstn_skipn 10 sorted). apply in_or_app. now left. }
  repeat apply conj.
  - rewrite Hq. apply firstn_le_length.
  - rewrite Hq. now apply ordered_firstn.
  - exists (skipn 10 sorted). rewrite Hq, firstn_skipn. split; [exact Hperm|].
    intros r r' Hr Hr'.
    rewrite <- (firstn_skipn 10 sorted) in Hord.
    pose proof (ordered_app_split _ (desc_num_trans _) _ _ Hord r r' Hr Hr') as H.
    unfold Aux.desc_num in H. now apply Qle_bool_iff in H.
  - rewrite Hq, <- firstn_map. apply NoDup_firstn.
    apply (Permutation_NoDup (Permutation_sym (Permutation_map _ Hperm))).
    unfold Query2.group_stage. rewrite !map_map. simpl.
    apply (group_by_NoDup _ _ string_eqb_eq).
  - intros r Hr. apply Hsub in Hr. apply in_map_iff in Hr.
    destruct Hr as [g [<- Hg]]. unfold Query2.group_stage in Hg.
    apply in_map_iff in Hg. destruct Hg as [[k b] [<- Hin]]. simpl.
    apply (group_by_member _ _ string_eqb_eq) in Hin. destruct Hin as [Hb Hne].
    destruct b as [|p b]; [congruence|].
    assert (Hp : In p (p :: b)) by now left.
    rewrite Hb in Hp. apply filter_In in Hp. destruct Hp as [Hp Hk].
    apply String.eqb_eq in Hk. unfold Query2.match_stage in Hp.
    apply filter_In in Hp. destruct Hp as [Hp Hf]. apply String.eqb_eq in Hf.
    exists p. auto.
Qed.

Lemma bind_Ok {A B} (m : result A) (k : A -> result B) (b : B) :
  bind m k = Ok b -> exists a, m = Ok a /\ k a = Ok b.
Proof. destruct m as [a|e]; simpl; [eauto | discriminate]. Qed.

(** X10.  Every query that ends in a [$sort] returns its rows in that order:
    each row's key is at least the key of the next row (queries 1, 3, 5, 6,
    7 and 8 by their measure, queries 9 and 10 by year), a null key sorting
    after every number. *)
Theorem results_follow_their_sort
  (plants : list Plant.t) (world : list World.t) (rates : list Rates.t)
  (prod : list Uranium.t) (stats : list Stats.t) (prices : list Price.t) :
  ordered (Aux.desc_num Query1.total_capacity_mw) (Query1.query1 plants)
  /\ (forall rows, Query3.query3 world = Ok rows ->
      ordered (Aux.desc_field Query3.avg_nuclear_share) rows)
  /\ ordered (Aux.desc_num Query5.total_capacity_mw) (Query5.query5 plants)
  /\ (forall rows, Query6.query6 rates = Ok rows ->
      ordered (Aux.desc_field Query6.times_more_dangerous) rows)
  /\ ordered (Aux.desc_num Query7.nuclear_gwh) (Query7.query7 plants)
  /\ (forall rows, Query8.query8 plants = Ok rows ->
      ordered (Aux.desc_field Query8.percent_error) rows)
  /\ (forall rows, Query9.query9 prod stats = Ok rows ->
      ordered (Aux.desc_Z Query9.Year) rows)
  /\ ordered (Aux.desc_Z Query10.year) (Query10.query10 stats prices).
Proof.
  repeat apply conj.
  - apply sort_by_is_ordered, desc_num_total.
  - intros rows H. apply bind_Ok in H. destruct H as [g [_ H]].
    inversion H. apply sort_by_is_ordered, desc_field_total.
  - apply sort_by_is_ordered, desc_num_total.
  - intros rows H. apply bind_Ok in H. destruct H as [g [_ H]].
    inversion H. apply sort_by_is_ordered, desc_field_total.
  - apply sort_by_is_ordered, desc_num_total.
  - intros rows H. apply bind_Ok in H. destruct H as [g [_ H]].
    inversion H. apply sort_by_is_ordered, desc_field_total.
  - intros rows H. apply bind_Ok in H. destruct H as [g [_ H]].
    inversion H. apply sort_by_is_ordered, desc_Z_total.
  - apply sort_by_is_ordered, desc_Z_total.
Qed.

(** ** Query 3: which entities are shown *)

Lemma mean_Val_nonempty (l : list (field Qc)) (a : Qc) :
  Spec.mean l = Val a -> l <> [].
Proof. intros H E. subst l. discriminate. Qed.

(** X3.  Query 3 fails in its first step exactly when the collection has no
    row of 2023.  When every share of 2023 is null the threshold is null and
    no row is shown.  Otherwise the result has one row per entity whose
    average share of 2023 is strictly above the threshold, and no entity
    twice: every such entity is shown, with its average rounded to two
    decimals. *)
Theorem query3_shows_entities_above_threshold (db : list World.t) :
  (Query3.query3 db = Fail UndefinedProperty <->
   forall d, In d db -> World.Year d <> 2023%Z)
  /\ (Query3.globalAvg db = Ok Null -> Query3.query3 db = Ok [])
  /\ (forall rows, Query3.query3 db = Ok rows -> NoDup (map Query3._id rows))
  /\ (forall rows g e a,
        Query3.query3 db = Ok rows ->
        Query3.globalAvg db = Ok (Val g) ->
        Spec.mean (map World.share_of_electricity_pct
          (filter (fun d => String.eqb e (World.Entity d))
             (filter (fun d => (World.Year d =? 2023)%Z) db))) = Val a ->
        g < a ->
        exists r, In r rows /\ Query3._id r = e
                  /\ Query3.avg_nuclear_share r = Val (Expr.round_num a 2)).
Proof.
  split; [|split; [|split]].
  - unfold Query3.query3. rewrite globalAvg_value.
    unfold Query3.match_stage. split.
    + intros H d Hd Hy.
      destruct (filter _ db) as [|x l] eqn:F; [|discriminate].
      assert (Hin : In d (filter (fun d => (World.Year d =? 2023)%Z) db)).
      { apply filter_In. split; [exact Hd | now apply Z.eqb_eq]. }
      rewrite F in Hin. exact Hin.
    + intro H. destruct (filter _ db) as [|x l] eqn:F; [reflexivity|].
      exfalso. assert (Hx : In x (x :: l)) by now left.
      rewrite <- F in Hx. apply filter_In in Hx. destruct Hx as [Hx Hy].
      apply Z.eqb_eq in Hy. exact (H x Hx Hy).
  - intro H. unfold Query3.query3. rewrite H. simpl. unfold Query3.pipeline.
    replace (filter _ (Query3.group_stage (Query3.match_stage db))) with (@nil Query3.row);
      [reflexivity|].
    symmetry. induction (Query3.group_stage (Query3.match_stage db)); simpl; auto.
  - intros rows H. apply bind_Ok in H. destruct H as [t [_ H]].
    inversion H; subst rows. clear H. unfold Query3.pipeline, sort_desc.
    apply (Permutation_NoDup (Permutation_sym (Permutation_map _ (sort_by_perm _ _)))).
    rewrite map_map. simpl.
    apply NoDup_map_filter. unfold Query3.group_stage. rewrite map_map. simpl.
    apply (group_by_NoDup _ _ string_eqb_eq).
  - intros rows g e a Hq Hg Hm Hlt. unfold Query3.query3 in Hq.
    rewrite Hg in Hq. simpl in Hq. inversion Hq; subst rows. clear Hq.
    pose proof (mean_Val_nonempty _ _ Hm) as Hne.
    destruct (filter (fun d => String.eqb e (World.Entity d))
                (filter (fun d => (World.Year d =? 2023)%Z) db)) as [|d l] eqn:F;
      [now elim Hne|].
    assert (Hd : In d (d :: l)) by now left.
    rewrite <- F in Hd. apply filter_In in Hd. destruct Hd as [Hd He].
    apply String.eqb_eq in He. subst e.
    pose proof (group_by_complete String.eqb World.Entity string_eqb_eq d _ Hd) as Hgrp.
    fold (Query3.match_stage db) in Hgrp, F.
    exists {| Query3._id := World.Entity d;
              Query3.avg_nuclear_share := Val (Expr.round_num a 2) |}.
    split; [|split; reflexivity].
    unfold Query3.pipeline, sort_desc. apply sort_by_In.
    apply in_map_iff.
    exists {| Query3._id := World.Entity d; Query3.avg_nuclear_share := Val a |}.
    split; [reflexivity|]. apply filter_In. split.
    + unfold Query3.group_stage. apply in_map_iff.
      eexists. split; [|exact Hgrp]. simpl. rewrite avg_is_mean, F.
      unfold Query3.match_stage in F. now rewrite <- Hm.
    + simpl. now apply Qc_ltb_lt.
Qed.

(** ** Query 4: the shape of the result *)

Lemma shift_from_length (l : list World.t) (p0 : field Qc) :
  List.length (Query4.shift_from p0 l) = List.length l.
Proof.
  revert p0. induction l as [|a l IH]; intro p0; simpl; [reflexivity|].
  now rewrite IH.
Qed.

Lemma filter_length_le {A} (f : A -> bool) (l : list A) :
  (List.length (filter f l) <= List.length l)%nat.
Proof.
  induction l as [|a l IH]; simpl; [lia|]. destruct (f a); simpl; lia.
Qed.

Lemma positive_docs_length (db : list World.t) :
  (List.length (Spec.positive_docs db)
   <= List.length (Query4.match_stage db) - 1)%nat.
Proof.
  unfold Spec.positive_docs, Query4.positive_stage.
  rewrite <- (sort_by_length (fun a b => (World.Year a <=? World.Year b)%Z)
                (Query4.match_stage db)).
  fold (Query4.sort_year (Query4.match_stage db)).
  destruct (Query4.sort_year (Query4.match_stage db)) as [|d rest]; [simpl; lia|].
  cbn [Query4.shift_from map filter].
  unfold Query4.add_difference at 1. cbn [fst snd Query4.d_generation_difference].
  replace (Match.gt (Expr.subtract (World.electricity_from_nuclear_twh d) Null) zero)
    with false by (destruct (World.electricity_from_nuclear_twh d); reflexivity).
  eapply Nat.le_trans; [apply filter_length_le|].
  rewrite length_map, shift_from_length. simpl. lia.
Qed.

Lemma query4_rows_are_maximal (db : list World.t) (r : Query4.row) :
  In r (Query4.query4 db) ->
  exists d m,
    In d (Spec.positive_docs db)
    /\ Acc.max (map Query4.d_generation_difference (Spec.positive_docs db)) = Val m
    /\ Query4.d_generation_difference d = Val m
    /\ r = Query4.project_stage d.
Proof.
  rewrite query4_unfold, in_map_iff. intros [d [<- Hd]].
  apply filter_In in Hd. destruct Hd as [Hd Heq].
  pose proof Hd as Hd'. apply positive_docs_In in Hd'.
  destruct Hd' as (prev & cur & pv & cv & _ & _ & _ & _ & E).
  destruct (Acc.max _) as [| |m] eqn:Em; rewrite E in Heq; simpl in Heq;
    try discriminate.
  apply Qc_eqb_eq in Heq. exists d, m. repeat split; try assumption.
  rewrite E. simpl. now rewrite Heq.
Qed.

(** X4.  All rows of query 4 carry the same [generation_difference], the
    largest increase, which is strictly positive.  The result has fewer rows
    than Canada has records after 2015 (the first record of the window has no
    predecessor), so none with fewer than two records; and it is non-empty
    exactly when some record exceeds the record before it. *)
Theorem query4_rows_share_the_maximum (db : list World.t) :
  (forall r1 r2, In r1 (Query4.query4 db) -> In r2 (Query4.query4 db) ->
     Query4.generation_difference r1 = Query4.generation_difference r2)
  /\ (forall r, In r (Query4.query4 db) ->
      exists x, Query4.generation_difference r = Val x /\ zero < x)
  /\ (List.length (Query4.query4 db)
      <= List.length (Query4.match_stage db) - 1)%nat
  /\ (Query4.query4 db <> [] <->
      exists prev cur pv cv,
        Spec.adjacent prev cur (Query4.sort_year (Query4.match_stage db))
        /\ World.electricity_from_nuclear_twh prev = Val pv
        /\ World.electricity_from_nuclear_twh cur = Val cv
        /\ zero < cv - pv).
Proof.
  split; [|split; [|split]].
  - intros r1 r2 H1 H2.
    apply query4_rows_are_maximal in H1, H2.
    destruct H1 as (d1 & m1 & _ & Em1 & E1 & ->).
    destruct H2 as (d2 & m2 & _ & Em2 & E2 & ->).
    simpl. rewrite E1, E2. congruence.
  - intros r Hr. apply query4_rows_are_maximal in Hr.
    destruct Hr as (d & m & Hd & _ & E & ->). simpl.
    apply positive_docs_In in Hd.
    destruct Hd as (prev & cur & pv & cv & _ & _ & _ & Hpos & ->).
    simpl in *. exists (cv - pv). auto.
  - rewrite query4_unfold, length_map.
    eapply Nat.le_trans; [apply filter_length_le | apply positive_docs_length].
  - split.
    + intro Hne. destruct (Query4.query4 db) as [|r l] eqn:E; [congruence|].
      assert (Hr : In r (Query4.query4 db)) by (rewrite E; now left).
      apply query4_rows_are_maximal in Hr.
      destruct Hr as (d & m & Hd & _ & _ & _).
      apply positive_docs_In in Hd.
      destruct Hd as (prev & cur & pv & cv & H1 & H2 & H3 & H4 & _).
      eauto 10.
    + intros (prev & cur & pv & cv & Hadj & Ep & Ec & Hpos).
      set (d := {| Query4.root := cur;
                   Query4.prev_year_generation := Val pv;
                   Query4.d_generation_difference := Val (cv - pv) |}).
      assert (Hd : In d (Spec.positive_docs db)).
      { apply positive_docs_In. exists prev, cur, pv, cv. auto 10. }
      destruct (max_fold_spec
                  (map Query4.d_generation_difference (Spec.positive_docs db)) Null)
        as (_ & Hmax2 & Hmax3).
      fold (Acc.max (map Query4.d_generation_difference (Spec.positive_docs db)))
        in Hmax2, Hmax3.
      destruct (Hmax2 (cv - pv)) as (m & Hm & _).
      { apply in_map_iff. exists d. auto. }
      destruct (Hmax3 m Hm) as [E|Hin]; [discriminate|].
      apply in_map_iff in Hin. destruct Hin as [d' [Ed' Hd']].
      intro Hnil.
      assert (Hin : In (Query4.project_stage d') (Query4.query4 db)).
      { rewrite query4_unfold. apply in_map. apply filter_In.
        split; [exact Hd'|]. rewrite Hm, Ed'. simpl. now apply Qc_eqb_eq. }
      rewrite Hnil in Hin. exact Hin.
Qed.

(** ** Query 5: the list of countries of a band *)

Lemma string_app_assoc (a b c : string) :
  ((a ++ b) ++ c)%string = (a ++ (b ++ c))%string.
Proof. induction a as [|x a IH]; simpl; [reflexivity | now rewrite IH]. Qed.

Lemma string_app_nonempty (a b : string) :
  a <> ""%string -> (a ++ b)%string <> ""%string.
Proof. destruct a; [congruence | discriminate]. Qed.

Lemma add_to_set_fold (l s : list string) :
  NoDup s ->
  let s' := fold_left
              (fun s c => if existsb (String.eqb c) s then s else s ++ [c]) l s in
  NoDup s' /\ forall x, In x s' <-> In x s \/ In x l.
Proof.
  revert s. induction l as [|c l IH]; intros s Hs; simpl.
  - split; [exact Hs | intuition].
  - destruct (existsb (String.eqb c) s) eqn:E.
    + destruct (IH s Hs) as [H1 H2]. split; [exact H1|].
      intro x. rewrite H2. apply existsb_exists in E.
      destruct E as [y [Hy Ey]]. apply String.eqb_eq in Ey. subst y.
      intuition. subst. auto.
    + assert (Hs' : NoDup (s ++ [c])).
      { apply NoDup_app; [exact Hs | constructor; [intros [] | constructor] |].
        intros x Hx [Ec|[]]. subst x.
        assert (existsb (String.eqb c) s = true); [|congruence].
        apply existsb_exists. exists c. split; [exact Hx | apply String.eqb_refl]. }
      destruct (IH (s ++ [c]) Hs') as [H1 H2]. split; [exact H1|].
      intro x. rewrite H2, in_app_iff. simpl. intuition.
Qed.

Lemma add_to_set_spec (l : list string) :
  NoDup (Query5.add_to_set l) /\ forall x, In x (Query5.add_to_set l) <-> In x l.
Proof.
  destruct (add_to_set_fold l [] (NoDup_nil _)) as [H1 H2].
  split; [exact H1|]. intro x. rewrite (H2 x). simpl. tauto.
Qed.

Lemma string_leb_total (a b : string) :
  String.leb a b = false -> String.leb b a = true.
Proof. intro H. destruct (String.leb_total a b) as [E|E]; congruence. Qed.

Lemma join_names_fold (l : list string) (v : string) :
  v <> ""%string -> (forall x, In x l -> x <> ""%string) ->
  fold_left (fun value this =>
               (value ++ (if String.eqb value "" then "" else ", ") ++ this)%string)
            l v
  = String.concat ", " (v :: l).
Proof.
  revert v. induction l as [|x l IH]; intros v Hv Hl; [reflexivity|].
  cbn [fold_left].
  replace (String.eqb v "") with false by (symmetry; now apply String.eqb_neq).
  rewrite IH.
  - destruct l as [|y l]; simpl; now rewrite ?string_app_assoc.
  - now apply string_app_nonempty.
  - intros y Hy. apply Hl. now right.
Qed.

(** With names that are not empty the [$reduce] is the join with ", ". *)
Lemma join_names_concat (l : list string) :
  (forall x, In x l -> x <> ""%string) ->
  Query5.join_names l = String.concat ", " l.
Proof.
  intro Hl. destruct l as [|a l]; [reflexivity|].
  unfold Query5.join_names. cbn [fold_left]. simpl String.eqb. cbn iota.
  change ("" ++ "" ++ a)%string with a.
  apply join_names_fold; [apply Hl; now left | intros; apply Hl; now right].
Qed.

(** X5.  In every row of query 5 [countries_in_band] lists the countries of
    the plants of that band, each once, in ascending order, and (the names
    not being empty) joined with ", ".  An empty name at the front leaves no
    trace, not even a separator. *)
Theorem countries_in_band_sorted_distinct (db : list Plant.t) :
  (forall r, In r (Query5.query5 db) ->
   exists names,
     Query5.countries_in_band r = Query5.join_names names
     /\ NoDup names
     /\ ordered String.leb names
     /\ (forall c, In c names <->
           exists p, In p (Query5.match_stage db)
                     /\ Query5.band (Plant.latitude p) = Query5.lat_band r
                     /\ Query5.band (Plant.longitude p) = Query5.lon_band r
                     /\ Plant.country_long p = c)
     /\ ((forall c, In c names -> c <> ""%string) ->
         Query5.countries_in_band r = String.concat ", " names))
  /\ (forall l, Query5.join_names (""%string :: l) = Query5.join_names l).
Proof.
  split; [|reflexivity].
  intros r Hr. unfold Query5.query5, sort_desc_num in Hr.
  apply sort_by_In in Hr. unfold Query5.group_stage in Hr.
  apply in_map_iff in Hr. destruct Hr as [[[k1 k2] b] [<- Hin]]. simpl.
  apply (group_by_member _ _ key_eqb_eq) in Hin. destruct Hin as [Hb _].
  set (raw := map (fun d => Plant.country_long (Query5.root d)) b).
  destruct (add_to_set_spec raw) as [Hnd Hmem].
  exists (Query5.sort_array (Query5.add_to_set raw)).
  assert (Hperm : Permutation (Query5.sort_array (Query5.add_to_set raw))
                    (Query5.add_to_set raw)) by apply sort_by_perm.
  repeat apply conj.
  - reflexivity.
  - exact (Permutation_NoDup (Permutation_sym Hperm) Hnd).
  - apply sort_by_is_ordered. exact string_leb_total.
  - intro c. split.
    + intro Hc. apply (Permutation_in _ Hperm) in Hc. apply Hmem in Hc.
      unfold raw in Hc. apply in_map_iff in Hc. destruct Hc as [d [<- Hd]].
      rewrite Hb in Hd. apply filter_In in Hd. destruct Hd as [Hd Hk].
      apply key_eqb_eq in Hk. inversion Hk; subst k1 k2.
      apply in_map_iff in Hd. destruct Hd as [p [<- Hp]].
      exists p. simpl. auto.
    + intros (p & Hp & H1 & H2 & <-).
      apply (Permutation_in _ (Permutation_sym Hperm)). apply Hmem.
      unfold raw. apply in_map_iff. exists (Query5.add_bands p).
      split; [reflexivity|]. rewrite Hb. apply filter_In. split.
      * now apply in_map.
      * apply key_eqb_eq. simpl. now rewrite H1, H2.
  - intro Hne. now apply join_names_concat.
Qed.

(** ** Query 6 with a nuclear rate that is not zero *)

Lemma map_result_map {A B} (f : A -> result B) (g : A -> B) (l : list A) :
  (forall a, In a l -> f a = Ok (g a)) -> map_result f l = Ok (map g l).
Proof.
  induction l as [|a l IH]; intro H; simpl; [reflexivity|].
  rewrite (H a (or_introl eq_refl)). simpl.
  rewrite IH; [reflexivity | intros; apply H; now right].
Qed.

(** X6.  When the nuclear death rate is a number other than zero, query 6
    succeeds with exactly one row per record of another source, none for
    Nuclear itself: each row repeats the nuclear rate and carries
    [times_more_dangerous] = [other_deaths / nuclear_deaths], or null when
    the other source has no rate. *)
Theorem query6_ratio_to_nuclear (db : list Rates.t) (n : Qc) :
  Query6.arrayElemAt0 (Query6.path_values (Query6.facet_nuclear db)) = Val n ->
  n <> zero ->
  exists rows,
    Query6.query6 db = Ok rows
    /\ Permutation (map (fun r => (Query6.other_source r, Query6.other_deaths r)) rows)
         (map (fun rec => (Rates.Entity rec, Rates.deaths_per_twh rec))
            (filter (fun rec => negb (String.eqb (Rates.Entity rec) "Nuclear")) db))
    /\ forall r, In r rows ->
         Query6.nuclear r = "Nuclear"%string
         /\ Query6.nuclear_deaths r = Val n
         /\ Query6.other_source r <> "Nuclear"%string
         /\ Query6.times_more_dangerous r =
            match Query6.other_deaths r with
            | Val x => Val (x / n)
            | _ => Null
            end.
Proof.
  intros Hn Hnz.
  set (mk := fun o : Query6.other_doc =>
         {| Query6.nuclear := "Nuclear"%string;
            Query6.nuclear_deaths := Val n;
            Query6.other_source := Query6.o_other_source o;
            Query6.other_deaths := Query6.o_other_deaths o;
            Query6.times_more_dangerous :=
              match Query6.o_other_deaths o with
              | Val x => Val (x / n)
              | _ => Null
              end |}).
  assert (Hc : forall o, Query6.combination (Query6.facet_nuclear db) o = Ok (mk o)).
  { intro o. unfold Query6.combination. rewrite Hn. unfold mk.
    destruct (Query6.o_other_deaths o) as [| |x]; try reflexivity.
    now rewrite divide_nonzero. }
  exists (sort_desc Query6.times_more_dangerous (map mk (Query6.facet_others db))).
  split; [|split].
  - unfold Query6.query6.
    rewrite (map_result_map _ mk); [reflexivity | intros; apply Hc].
  - eapply perm_trans; [apply Permutation_map, sort_by_perm|].
    unfold Query6.facet_others. rewrite !map_map. simpl. apply Permutation_refl.
  - intros r Hr. unfold sort_desc in Hr. apply sort_by_In in Hr.
    apply in_map_iff in Hr. destruct Hr as [o [<- Ho]]. simpl.
    repeat split.
    unfold Query6.facet_others in Ho. apply in_map_iff in Ho.
    destruct Ho as [rec [<- Hrec]]. simpl. apply filter_In in Hrec.
    destruct Hrec as [_ Hf]. apply negb_true_iff in Hf.
    now apply String.eqb_neq in Hf.
Qed.

(** Query 6 on death rates of 24.62 for coal and 0.03 for nuclear, wind
    without a rate. *)
Lemma query6_ratio_sample :
  exists rows,
    Query6.query6 Cases.rates = Ok rows
    /\ Permutation (map (fun r => (Query6.other_source r, Query6.other_deaths r)) rows)
         (map (fun rec => (Rates.Entity rec, Rates.deaths_per_twh rec))
            (filter (fun rec => negb (String.eqb (Rates.Entity rec) "Nuclear"))
               Cases.rates))
    /\ forall r, In r rows ->
         Query6.nuclear r = "Nuclear"%string
         /\ Query6.nuclear_deaths r = Val (dec 3 100)
         /\ Query6.other_source r <> "Nuclear"%string
         /\ Query6.times_more_dangerous r =
            match Query6.other_deaths r with
            | Val x => Val (x / dec 3 100)
            | _ => Null
            end.
Proof.
  apply (query6_ratio_to_nuclear Cases.rates (dec 3 100)).
  - reflexivity.
  - apply Qc_neq_by_eqb. reflexivity.
Defined.

(** ** Query 7: the fields of a row *)

(** X7.  In every row of query 7 [nuclear_deaths] is [nuclear_gwh / 1000 *
    0.07]; the solar fields are either both absent, the row then keeping the
    key of the nuclear group, or come from one solar group of the same
    country code, with [solar_gwh] strictly positive and [solar_deaths] =
    [solar_gwh / 1000 * 0.02]; in that case [_id], and with it
    [country_long], are those of the solar group, whatever long name the
    nuclear plants carry. *)
Theorem query7_row_fields (db : list Plant.t) :
  (forall r, In r (Query7.query7 db) ->
     Query7.country r = fst (Query7._id r)
     /\ Query7.country_long r = snd (Query7._id r)
     /\ Query7.nuclear_deaths r = Query7.nuclear_gwh r / dec 1000 1 * dec 7 100
     /\ ((Query7.solar_gwh r = Absent /\ Query7.solar_deaths r = Absent
          /\ exists n, In n (Query7.facet_nuclear db) /\ Query7._id r = Query7.b_id n)
         \/ (exists s g,
               In s (Query7.facet_solar db)
               /\ Query7._id r = Query7.b_id s
               /\ g = Spec.generation_of "Solar" (Query7.b_id s) db
               /\ zero < g
               /\ Query7.solar_gwh r = Val g
               /\ Query7.solar_deaths r = Val (g / dec 1000 1 * dec 2 100))))
  /\ (forall n s, In n (Query7.facet_nuclear db) ->
      Query7.first_solar (Query7.facet_solar db) n = Some s ->
      exists r, In r (Query7.query7 db)
                /\ Query7.nuclear_gwh r = Query7.b_gwh n
                /\ Query7.country_long r = snd (Query7.b_id s)).
Proof.
  split.
  - intros r Hr. apply query7_rows in Hr. destruct Hr as [n [Hn ->]].
    pose proof Hn as Hn'. apply branch_In in Hn'.
    destruct Hn' as (_ & _ & _ & Hdn).
    unfold Query7.combine.
    destruct (Query7.first_solar (Query7.facet_solar db) n) as [s|] eqn:E; simpl.
    + repeat split; try assumption. right.
      apply first_solar_Some in E. destruct E as [Hs _].
      pose proof Hs as Hs'. apply branch_In in Hs'.
      destruct Hs' as (_ & Hpos & Hg & Hds).
      exists s, (Query7.b_gwh s). rewrite Hds, <- Hg. repeat split; auto.
      now rewrite Hg.
    + repeat split; try assumption. left. eauto.
  - intros n s Hn Hs. exists (Query7.combine (Query7.facet_solar db) n).
    split; [apply query7_rows; eauto|].
    unfold Query7.combine. rewrite Hs. simpl. auto.
Qed.

(** ** Query 8: the errors of a row *)

Lemma round_half_even_nonneg (q : Qc) :
  zero <= q -> (0 <= Expr.round_half_even q)%Z.
Proof.
  intro H. unfold Expr.round_half_even.
  assert (Hf : (0 <= Qfloor q)%Z).
  { change 0%Z with (Qfloor 0). apply Qfloor_resp_le. exact H. }
  repeat match goal with |- context [if ?c then _ else _] => destruct c end; lia.
Qed.

Lemma round_half_even_nonpos (q : Qc) :
  q <= zero -> (Expr.round_half_even q <= 0)%Z.
Proof.
  intro H. unfold Expr.round_half_even.
  assert (Hf : (Qfloor q <= 0)%Z).
  { change 0%Z with (Qfloor 0). apply Qfloor_resp_le. exact H. }
  destruct (Qc_ltb (q - Q2Qc (inject_Z (Qfloor q))) (dec 1 2)) eqn:E1; [exact Hf|].
  assert (Hne : Qfloor q <> 0%Z).
  { intro E0. rewrite E0 in E1.
    assert (Hlt : q - Q2Qc (inject_Z 0) < dec 1 2).
    { clear E1. unfold zero in *; qc_to_q. change (inject_Z 0) with 0%Q. lra. }
    apply Qc_ltb_lt in Hlt. congruence. }
  repeat match goal with |- context [if ?c then _ else _] => destruct c end; lia.
Qed.

Lemma round_num_2_nonneg (x : Qc) : zero <= x -> zero <= Expr.round_num x 2.
Proof.
  intro H. unfold Expr.round_num. change (Expr.scale 2) with (dec 100 1).
  assert (Hz : (0 <= Expr.round_half_even (x * dec 100 1))%Z).
  { apply round_half_even_nonneg. unfold zero in *; qc_to_q. lra. }
  rewrite Zle_Qle in Hz.
  set (z := inject_Z (Expr.round_half_even (x * dec 100 1))) in *.
  clearbody z. clear H. change (inject_Z 0) with 0%Q in Hz.
  unfold zero in *; qc_to_q. change (/ 100)%Q with (1 # 100)%Q. lra.
Qed.

Lemma round_num_2_nonpos (x : Qc) : x <= zero -> Expr.round_num x 2 <= zero.
Proof.
  intro H. unfold Expr.round_num. change (Expr.scale 2) with (dec 100 1).
  assert (Hz : (Expr.round_half_even (x * dec 100 1) <= 0)%Z).
  { apply round_half_even_nonpos. unfold zero in *; qc_to_q. lra. }
  rewrite Zle_Qle in Hz.
  set (z := inject_Z (Expr.round_half_even (x * dec 100 1))) in *.
  clearbody z. clear H. change (inject_Z 0) with 0%Q in Hz.
  unfold zero in *; qc_to_q. change (/ 100)%Q with (1 # 100)%Q. lra.
Qed.

Lemma round_num_2_zero : Expr.round_num zero 2 = zero.
Proof. apply Qc_is_canon. reflexivity. Qed.

Lemma percent_nonneg (a g : Qc) :
  zero <= a -> zero < g -> zero <= a / g * dec 100 1.
Proof.
  intros Ha Hg. 
  assert (Hi : (0 < / this g)%Q) by (apply Qinv_lt_0_compat; exact Hg).
  unfold Qcle, Qclt, Qcdiv, Qcmult, Qcinv, zero, dec, Q2Qc in *. cbn [this] in *.
  rewrite !Qred_correct in *.
  apply Qmult_le_0_compat; [|discriminate].
  apply Qmult_le_0_compat; [exact Ha | now apply Qlt_le_weak].
Qed.

Lemma percent_nonpos (a g : Qc) :
  zero <= a -> g < zero -> a / g * dec 100 1 <= zero.
Proof.
  intros Ha Hg.
  assert (Hg' : zero < - g) by (unfold zero in *; qc_to_q; lra).
  assert (Hne : g <> zero).
  { intro E. subst g. exact (Qclt_not_eq _ _ Hg eq_refl). }
  pose proof (percent_nonneg a (- g) Ha Hg') as H.
  replace (a / g * dec 100 1) with (- (a / - g * dec 100 1)).
  - clear Ha Hg Hg' Hne. set (y := a / - g * dec 100 1) in *. clearbody y.
    unfold zero in *; qc_to_q. lra.
  - unfold zero, dec in Hne. field. split; [exact Hne|].
    intro E. apply Hne. rewrite <- (Qcopp_involutive g), E. reflexivity.
Qed.

Lemma map_result_Fail_inv {A B} (f : A -> result B) (l : list A) (e : error) :
  map_result f l = Fail e -> exists a, In a l /\ f a = Fail e.
Proof.
  induction l as [|a l IH]; simpl; [discriminate|].
  destruct (f a) as [b|e'] eqn:Ea; simpl.
  - destruct (map_result f l) as [bs|e'']; simpl; [discriminate|].
    intro H. inversion H; subst. destruct (IH eq_refl) as [a' [Ha' Hf]]. eauto.
  - intro H. inversion H; subst. eauto.
Qed.

(** X8.  When query 8 succeeds it has one row per nuclear plant with both a
    real and an estimated generation; [absolute_error] is never negative,
    [percent_error] has the sign of the real generation (a negative real
    generation gives a negative or zero percentage), and both are zero when
    estimate and real value agree.  The query can fail in one way only: a
    division by zero, on a plant whose real generation is 0. *)
Theorem query8_errors (db : list Plant.t) :
  (forall rows, Query8.query8 db = Ok rows ->
     List.length rows = List.length (Query8.match_stage db)
     /\ forall r, In r rows ->
        exists g e a pe,
          Query8.real_generation r = Val g
          /\ Query8.estimated_generation r = Val e
          /\ g <> zero
          /\ Query8.absolute_error r = Val a /\ zero <= a
          /\ Query8.percent_error r = Val pe
          /\ (zero < g -> zero <= pe)
          /\ (g < zero -> pe <= zero)
          /\ (g = e -> a = zero /\ pe = zero))
  /\ (forall err, Query8.query8 db = Fail err ->
      err = DivideByZero
      /\ exists p, In p (Query8.match_stage db)
                   /\ Plant.generation_gwh_2017 p = Val zero).
Proof.
  split.
  - intros rows H. apply bind_Ok in H. destruct H as [rs [Hrs H]].
    inversion H; subst rows. clear H. split.
    + unfold sort_desc. rewrite sort_by_length. now apply map_result_length in Hrs.
    + intros r Hr. unfold sort_desc in Hr. apply sort_by_In in Hr.
      apply (map_result_Ok _ _ _ Hrs) in Hr. destruct Hr as [p [Hp Hr]].
      apply query8_match_stage in Hp. destruct Hp as (_ & _ & [g Eg] & [e Ee]).
      unfold Query8.add_errors, Query8.abs_diff in Hr. rewrite Eg, Ee in Hr.
      simpl in Hr. destruct (Qc_eqb g zero) eqn:Ez; simpl in Hr; [discriminate|].
      inversion Hr; subst r. clear Hr. simpl.
      assert (Hnz : g <> zero) by (intro E; apply Qc_eqb_eq in E; congruence).
      exists g, e, (Expr.round_num (Qcabs (g - e)) 2),
        (Expr.round_num (Qcabs (g - e) / g * dec 100 1) 2).
      pose proof (Qcabs_nonneg (g - e)) as Habs.
      repeat apply conj; try assumption; try reflexivity.
      * now apply round_num_2_nonneg.
      * intro Hg. apply round_num_2_nonneg. now apply percent_nonneg.
      * intro Hg. apply round_num_2_nonpos. now apply percent_nonpos.
      * intros <-. replace (g - g) with zero by (unfold zero, dec; ring).
        split; [exact round_num_2_zero|].
        replace (Qcabs zero / g * dec 100 1) with zero;
          [exact round_num_2_zero|].
        replace (Qcabs zero) with zero by (apply Qc_is_canon; reflexivity).
        unfold zero, dec in *. field. exact Hnz.
  - intros err H. unfold Query8.query8 in H.
    destruct (map_result Query8.add_errors (Query8.match_stage db)) as [rs|e] eqn:E;
      simpl in H; [discriminate|].
    inversion H; subst e. clear H.
    apply map_result_Fail_inv in E. destruct E as [p [Hp Hf]].
    pose proof Hp as Hp'.
    apply query8_match_stage in Hp'. destruct Hp' as (_ & _ & [g Eg] & [e Ee]).
    unfold Query8.add_errors, Query8.abs_diff in Hf. rewrite Eg, Ee in Hf.
    simpl in Hf. destruct (Qc_eqb g zero) eqn:Ez; simpl in Hf; [|discriminate].
    apply Qc_eqb_eq in Ez. subst g. inversion Hf. split; [reflexivity|]. eauto.
Qed.

(** ** Query 9: when the guarded casts succeed *)

Lemma is_dot_eq (c : ascii) : Query9.is_dot c = true <-> c = "."%char.
Proof. unfold Query9.is_dot. apply Ascii.eqb_eq. Qed.

Lemma is_digit_not_dot (c : ascii) :
  Query9.is_digit c = true -> Query9.is_dot c = false.
Proof.
  intro H. destruct (Query9.is_dot c) eqn:E; [|reflexivity].
  apply is_dot_eq in E. subst c. discriminate.
Qed.

Lemma split_dot_spec (l : list ascii) :
  forallb (fun c => negb (Query9.is_dot c)) (fst (Query9.split_dot l)) = true
  /\ match snd (Query9.split_dot l) with
     | None => l = fst (Query9.split_dot l)
     | Some fp => l = fst (Query9.split_dot l) ++ "."%char :: fp
     end.
Proof.
  induction l as [|c l IH]; simpl; [auto|].
  destruct (Query9.is_dot c) eqn:E.
  - simpl. split; [reflexivity|]. apply is_dot_eq in E. now subst c.
  - destruct (Query9.split_dot l) as [a [fp|]]; simpl in *;
      rewrite E; simpl; destruct IH as [H1 H2]; split; auto; now f_equal.
Qed.

Lemma digits_only_counts (l : list ascii) :
  forallb Query9.is_digit l = true ->
  filter Query9.is_dot l = [] /\ filter Query9.is_digit l = l.
Proof.
  induction l as [|c l IH]; simpl; [auto|].
  intro H. apply andb_true_iff in H. destruct H as [Hc Hl].
  rewrite Hc, (is_digit_not_dot c Hc). destruct (IH Hl) as [-> ->]. auto.
Qed.

Lemma digit_or_dot_split (l : list ascii) :
  forallb (fun c => Query9.is_digit c || Query9.is_dot c) l = true ->
  forallb Query9.is_digit l = true
  \/ (forallb Query9.is_digit l = false /\ filter Query9.is_dot l <> []).
Proof.
  induction l as [|c l IH]; simpl; [auto|].
  intro H. apply andb_true_iff in H. destruct H as [Hc Hl].
  destruct (Query9.is_digit c) eqn:Ed; simpl in *.
  - rewrite (is_digit_not_dot c Ed). exact (IH Hl).
  - rewrite Hc. right. split; [reflexivity | discriminate].
Qed.

Lemma no_dot_digits (l : list ascii) :
  forallb (fun c => Query9.is_digit c || Query9.is_dot c) l = true ->
  forallb (fun c => negb (Query9.is_dot c)) l = true ->
  forallb Query9.is_digit l = true.
Proof.
  induction l as [|c l IH]; simpl; [auto|].
  rewrite !andb_true_iff. intros [Hc Hl] [Hn Hl'].
  split; [|now apply IH].
  destruct (Query9.is_dot c); [discriminate|].
  now rewrite orb_false_r in Hc.
Qed.

Lemma digits_value_digits (l : list ascii) (acc n : Z) :
  Query9.digits_value acc l = Some n -> forallb Query9.is_digit l = true.
Proof.
  intro H. destruct (forallb Query9.is_digit l) eqn:E; [reflexivity|].
  rewrite (digits_value_None l acc E) in H. discriminate.
Qed.

Lemma digits_are_decimal (l : list ascii) :
  forallb Query9.is_digit l = true ->
  forallb (fun c => Query9.is_digit c || Query9.is_dot c) l = true.
Proof.
  rewrite !forallb_forall. intros H c Hc. now rewrite (H c Hc).
Qed.

(** [$toDouble] converts texts of digits and dots only. *)
Lemma toDouble_Ok_chars (s : string) (x : Qc) :
  Query9.toDouble s = Ok x ->
  forallb (fun c => Query9.is_digit c || Query9.is_dot c)
    (list_ascii_of_string s) = true.
Proof.
  unfold Query9.toDouble.
  destruct (split_dot_spec (list_ascii_of_string s)) as [_ Hrest].
  destruct (Query9.split_dot (list_ascii_of_string s)) as [ip rest].
  simpl in Hrest. destruct rest as [fp|].
  - destruct (Query9.digits_value 0 ip) as [n|] eqn:En;
      [|destruct ip, fp; simpl; intro H; discriminate H].
    destruct (Query9.digits_value 0 fp) as [m|] eqn:Em;
      [|destruct ip, fp; simpl; intro H; discriminate H].
    intros _. rewrite Hrest, forallb_app. simpl.
    rewrite (digits_are_decimal _ (digits_value_digits _ _ _ En)).
    rewrite (digits_are_decimal _ (digits_value_digits _ _ _ Em)).
    reflexivity.
  - destruct (Query9.digits_value 0 ip) as [n|] eqn:En;
      [|destruct ip; [|rewrite En]; intro H; discriminate H].
    intros _. rewrite Hrest.
    exact (digits_are_decimal _ (digits_value_digits _ _ _ En)).
Qed.

(** The outcome of [$toDouble] on a non-empty run of digits and dots. *)
Lemma toDouble_run (s : string) :
  list_ascii_of_string s <> [] ->
  forallb (fun c => Query9.is_digit c || Query9.is_dot c)
    (list_ascii_of_string s) = true ->
  (Query9.toDouble s = Fail ConversionFailure /\
   ((2 <= Aux.dots s)%nat \/ Aux.digits s = 0%nat))
  \/ (exists x, Query9.toDouble s = Ok x
                /\ (Aux.dots s <= 1)%nat /\ (1 <= Aux.digits s)%nat).
Proof.
  unfold Query9.toDouble, Aux.dots, Aux.digits.
  set (l := list_ascii_of_string s) in *. clearbody l. intros Hne Hall.
  destruct (split_dot_spec l) as [Hip Hrest].
  destruct (Query9.split_dot l) as [ip rest]. simpl in Hip, Hrest.
  destruct rest as [fp|].
  - assert (Hall' := Hall). rewrite Hrest in Hall'.
    rewrite forallb_app in Hall'. apply andb_true_iff in Hall'.
    destruct Hall' as [Hip' Hfp]. simpl in Hfp. 
    pose proof (no_dot_digits ip Hip' Hip) as Hdig.
    destruct (digits_only_counts ip Hdig) as [Hd1 Hd2].
    destruct (digits_value_Some ip 0 Hdig (Z.le_refl 0)) as [n [Hn _]].
    assert (Hcount : filter Query9.is_dot l = "."%char :: filter Query9.is_dot fp
                     /\ filter Query9.is_digit l = ip ++ filter Query9.is_digit fp).
    { rewrite Hrest, !filter_app, Hd1, Hd2. simpl. auto. }
    destruct Hcount as [Hc1 Hc2]. rewrite Hc1, Hc2, length_app. simpl List.length.
    destruct (digit_or_dot_split fp Hfp) as [Hfd|[Hfd Hdot]].
    + destruct (digits_only_counts fp Hfd) as [Hf1 Hf2]. rewrite Hf1, Hf2.
      destruct (digits_value_Some fp 0 Hfd (Z.le_refl 0)) as [m [Hm _]].
      destruct ip as [|a ip], fp as [|b fp]; simpl List.length.
      * left. split; [reflexivity | now right].
      * right. rewrite Hn, Hm. eexists. split; [reflexivity | simpl; lia].
      * right. rewrite Hn, Hm. eexists. split; [reflexivity | simpl; lia].
      * right. rewrite Hn, Hm. eexists. split; [reflexivity | simpl; lia].
    + left. rewrite Hn, (digits_value_None fp 0 Hfd).
      destruct (filter Query9.is_dot fp) as [|d ds]; [congruence|].
      split; [|left; simpl; lia].
      destruct ip, fp; try reflexivity; discriminate.
  - subst ip. pose proof (no_dot_digits l Hall Hip) as Hdig.
    destruct (digits_only_counts l Hdig) as [Hd1 Hd2]. rewrite Hd1, Hd2.
    destruct (digits_value_Some l 0 Hdig (Z.le_refl 0)) as [n [Hn _]].
    right. destruct l as [|a l']; [congruence|]. rewrite Hn.
    eexists. split; [reflexivity | simpl; lia].
Qed.

(** The outcome of [$toDouble] on a text that passed [/^[0-9.]+$/]. *)
Lemma toDouble_outcome (s : string) :
  Query9.matches_decimal s = true ->
  (Query9.toDouble s = Fail ConversionFailure /\
   ((2 <= Aux.dots s)%nat \/ Aux.digits s = 0%nat
    \/ Spec.final_newline s = true))
  \/ (exists x, Query9.toDouble s = Ok x
                /\ (Aux.dots s <= 1)%nat /\ (1 <= Aux.digits s)%nat
                /\ Spec.final_newline s = false).
Proof.
  intro Hm. destruct (Spec.final_newline s) eqn:Hn.
  - left. split; [|auto].
    destruct (Query9.toDouble s) as [x|e] eqn:T.
    + exfalso. apply toDouble_Ok_chars in T.
      destruct (matches_run_newline _ s Hm Hn) as (body & E & _ & _).
      rewrite E, forallb_app in T. simpl in T.
      rewrite andb_false_r in T. discriminate.
    + now rewrite (toDouble_failure s e T).
  - unfold Query9.matches_decimal in Hm. rewrite (matches_run_plain _ s Hn) in Hm.
    destruct (toDouble_run s) as [[Hf Hc]|(x & Hx & Hd & Hg)].
    + destruct (list_ascii_of_string s); [discriminate | discriminate].
    + destruct (list_ascii_of_string s); [discriminate | exact Hm].
    + left. split; [exact Hf|]. destruct Hc; auto.
    + right. exists x. auto.
Qed.

Lemma production_of_Val (s : string) :
  Query9.matches_decimal s = true ->
  Query9.production_of (Val s) = (v <- Query9.toDouble s ;; Ok (Val v)).
Proof. unfold Query9.production_of. simpl. now intros ->. Qed.

Lemma production_of_failure (input : field string) (e : error) :
  Query9.production_of input = Fail e ->
  exists txt, input = Val txt /\ Query9.matches_decimal txt = true
              /\ Query9.toDouble txt = Fail e.
Proof.
  unfold Query9.production_of.
  destruct input as [| |txt]; simpl; try discriminate.
  destruct (Query9.matches_decimal txt) eqn:E; [|discriminate].
  destruct (Query9.toDouble txt) as [v|e'] eqn:T; simpl; [discriminate|].
  intro H. inversion H; subst. eauto.
Qed.

Lemma employees_of_failure (input : field string) (e : error) :
  Query9.employees_of input = Fail e ->
  exists txt, input = Val txt /\ Query9.matches_integer txt = true
              /\ Query9.toInt txt = Fail e.
Proof.
  unfold Query9.employees_of.
  destruct input as [| |txt]; simpl; try discriminate.
  destruct (Query9.matches_integer txt) eqn:E; [|discriminate].
  destruct (Query9.toInt txt) as [v|e'] eqn:T; simpl; [discriminate|].
  intro H. inversion H; subst. eauto.
Qed.

(** X9.  A production text that passed [/^[0-9.]+$/] fails [$toDouble]
    when it has two or more dots, no digit at all, or a final newline (which
    [$] lets through); a text of at most 300 characters with at most one dot,
    at least one digit and no final newline converts.  An [employees] value,
    when there is one, is between 0 and 2147483647.  Query 9 can fail in one
    way only, a failed conversion, and then on a production record that has
    statistics of its year and whose text passed its pattern. *)
Theorem query9_cast_outcomes :
  (forall txt, Query9.matches_decimal txt = true ->
     (2 <= Aux.dots txt)%nat \/ Aux.digits txt = 0%nat
     \/ Spec.final_newline txt = true ->
     Query9.production_of (Val txt) = Fail ConversionFailure)
  /\ (forall txt, Query9.matches_decimal txt = true ->
      (String.length txt <= 300)%nat ->
      (Aux.dots txt <= 1)%nat -> (1 <= Aux.digits txt)%nat ->
      Spec.final_newline txt = false ->
      exists x, Query9.production_of (Val txt) = Ok (Val x))
  /\ (forall input v, Query9.employees_of input = Ok (Val v) ->
      (0 <= v <= Query9.int32_max)%Z)
  /\ (forall prod stats err, Query9.query9 prod stats = Fail err ->
      err = ConversionFailure
      /\ exists u s txt,
           In u prod /\ In s stats /\ Stats.YEAR s = Uranium.Year u
           /\ ((Uranium.mine_production u = Val txt
                /\ Query9.matches_decimal txt = true
                /\ Query9.toDouble txt = Fail ConversionFailure)
               \/ (Uranium.Employment u = Val txt
                   /\ Query9.matches_integer txt = true
                   /\ Query9.toInt txt = Fail ConversionFailure))).
Proof.
  split; [|split; [|split]].
  - intros txt Hm Hc. rewrite (production_of_Val txt Hm).
    destruct (toDouble_outcome txt Hm) as [[Hf _]|(x & Hx & Hd & Hg & Hn)].
    + now rewrite Hf.
    + destruct Hc as [Hc|[Hc|Hc]]; [lia | lia | congruence].
  - intros txt Hm _ Hd Hg Hn. rewrite (production_of_Val txt Hm).
    destruct (toDouble_outcome txt Hm) as [[Hf Hc]|(x & Hx & _)].
    + destruct Hc as [Hc|[Hc|Hc]]; [lia | lia | congruence].
    + rewrite Hx. simpl. eauto.
  - intros input v H. unfold Query9.employees_of in H.
    destruct input as [| |txt]; simpl in H; try discriminate.
    destruct (Query9.matches_integer txt) eqn:E; [|discriminate].
    unfold Query9.toInt in H.
    destruct (list_ascii_of_string txt) as [|c l]; [discriminate|].
    destruct (Query9.digits_value 0 (c :: l)) as [n|] eqn:Hn; [|discriminate].
    destruct (digits_value_Some (c :: l) 0 (digits_value_digits _ _ _ Hn)
                (Z.le_refl 0)) as [n' [Hn' Hpos]].
    rewrite Hn in Hn'. inversion Hn'; subst n'.
    destruct (n <=? Query9.int32_max)%Z eqn:Hle; simpl in H; [|discriminate].
    inversion H; subst v. apply Z.leb_le in Hle. lia.
  - intros prod stats err H. unfold Query9.query9 in H.
    destruct (map_result Query9.project_stage (Query9.join_stage prod stats))
      as [rs|e] eqn:E; simpl in H; [discriminate|].
    inversion H; subst e. clear H.
    apply map_result_Fail_inv in E. destruct E as [[u s] [Hin Hf]].
    pose proof (project_stage_failure _ _ Hf) as ->.
    split; [reflexivity|].
    apply lookup_unwind_In in Hin. destruct Hin as (Hu & Hs & Hy).
    apply Z.eqb_eq in Hy.
    unfold Query9.project_stage in Hf. simpl in Hf.
    destruct (Query9.production_of (Uranium.mine_production u)) as [p|e] eqn:Ep.
    + simpl in Hf.
      destruct (Query9.employees_of (Uranium.Employment u)) as [m|e] eqn:Ee;
        simpl in Hf; [discriminate|].
      inversion Hf; subst e.
      apply employees_of_failure in Ee. destruct Ee as (txt & E1 & E2 & E3).
      exists u, s, txt. auto 10.
    + simpl in Hf. inversion Hf; subst e.
      apply production_of_failure in Ep. destruct Ep as (txt & E1 & E2 & E3).
      exists u, s, txt. auto 10.
Qed.

(** ** The capacity totals of queries 1, 2 and 5 *)

Lemma filter_andb {A} (f g : A -> bool) (l : list A) :
  filter f (filter g l) = filter (fun x => g x && f x) l.
Proof.
  induction l as [|a l IH]; simpl; [reflexivity|].
  destruct (g a); simpl; [destruct (f a)|]; now rewrite IH.
Qed.

Lemma count_cons {A} (a : A) (l : list A) :
  Spec.count (a :: l) = dec 1 1 + Spec.count l.
Proof.
  unfold Spec.count. cbn [List.length].
  apply Qc_is_canon. rewrite Nat2Z.inj_succ. unfold Z.succ.
  unfold Qcplus, dec, Q2Qc. cbn [this]. rewrite !Qred_correct.
  rewrite inject_Z_plus. change (inject_Z 1) with (1 # 1)%Q. ring.
Qed.

Lemma round_num_1_close (x : Qc) :
  x - dec 1 20 <= Expr.round_num x 1 /\ Expr.round_num x 1 <= x + dec 1 20.
Proof.
  unfold Expr.round_num.
  destruct (round_half_even_close (x * Expr.scale 1)) as [H1 H2].
  set (z := inject_Z (Expr.round_half_even (x * Expr.scale 1))) in *.
  change (Expr.scale 1) with (dec 10 1) in *.
  qc_to_q. clearbody z. change (/ 10)%Q with (1 # 10)%Q.
  split; lra.
Qed.

(** Numbers that are each within [e] of another add up to within [e] times
    their count. *)
Lemma total_close {A} (f g : A -> Qc) (e : Qc) (l : list A) :
  (forall a, In a l -> f a - e <= g a /\ g a <= f a + e) ->
  Spec.total (map f l) - e * Spec.count l <= Spec.total (map g l)
  /\ Spec.total (map g l) <= Spec.total (map f l) + e * Spec.count l.
Proof.
  induction l as [|a l IH]; intro H.
  - replace (Spec.count (@nil A)) with zero by (apply Qc_is_canon; reflexivity).
    simpl. unfold zero. qc_to_q. split; lra.
  - destruct (H a (or_introl eq_refl)) as [Ha1 Ha2].
    destruct IH as [IH1 IH2]; [intros; apply H; now right|].
    rewrite count_cons. cbn [map Spec.total fold_right].
    fold (Spec.total (map f l)). fold (Spec.total (map g l)).
    set (tf := Spec.total (map f l)) in *. set (tg := Spec.total (map g l)) in *.
    set (c := Spec.count l) in *. set (x := f a) in *. set (y := g a) in *.
    clearbody tf tg c x y. clear H.
    qc_to_q. split; lra.
Qed.

(** C5 (as amended).  In the sums over [capacity_mw] the plants whose
    capacity is null or absent contribute nothing, and every group has its
    row: each fuel in query 1, each band of a nuclear plant with coordinates
    in query 5, each country of a nuclear plant in query 2 unless ten other
    rows with totals at least as large are shown.  The total of a row is the
    sum of the non-null capacities of the plants of its group, as it is in
    query 5, rounded to one decimal in query 1 and to two in query 2.  Over
    the rows of query 1 the sums before rounding add up to the sum of the
    non-null capacities of the whole collection; the rounded totals shown
    come within 0.05 per row of it. *)
Theorem capacity_sum_skips_null (db : list Plant.t) :
  (forall p, In p db ->
     exists r, In r (Query1.query1 db) /\ Query1._id r = Plant.primary_fuel p)
  /\ NoDup (map Query1._id (Query1.query1 db))
  /\ (forall r, In r (Query1.query1 db) ->
      Query1.total_capacity_mw r =
      Expr.round_num (Spec.capacity_of (Spec.of_fuel (Query1._id r)) db) 1)
  /\ Spec.total
       (map (fun r => Spec.capacity_of (Spec.of_fuel (Query1._id r)) db)
          (Query1.query1 db))
     = Spec.total (Spec.capacities db)
  /\ (Spec.total (Spec.capacities db) - dec 1 20 * Spec.count (Query1.query1 db)
      <= Spec.total (map Query1.total_capacity_mw (Query1.query1 db))
      /\ Spec.total (map Query1.total_capacity_mw (Query1.query1 db))
         <= Spec.total (Spec.capacities db)
            + dec 1 20 * Spec.count (Query1.query1 db))
  /\ (forall r, In r (Query2.query2 db) ->
      Query2.total_nuclear_capacity_mw r =
      Expr.round_num
        (Spec.capacity_of (Spec.nuclear_of_country (Query2._id r)) db) 2)
  /\ (forall p, In p db -> Plant.primary_fuel p = "Nuclear"%string ->
      (exists r, In r (Query2.query2 db)
                 /\ Query2._id r = Plant.country_long p)
      \/ (List.length (Query2.query2 db) = 10%nat
          /\ forall r, In r (Query2.query2 db) ->
               Expr.round_num
                 (Spec.capacity_of
                    (Spec.nuclear_of_country (Plant.country_long p)) db) 2
               <= Query2.total_nuclear_capacity_mw r))
  /\ (forall r, In r (Query5.query5 db) ->
      Query5.total_capacity_mw r =
      Spec.capacity_of
        (Spec.nuclear_in_band (Query5.lat_band r) (Query5.lon_band r)) db)
  /\ (forall p, In p db -> Plant.primary_fuel p = "Nuclear"%string ->
      Match.ne_null (Plant.latitude p) = true ->
      Match.ne_null (Plant.longitude p) = true ->
      exists r, In r (Query5.query5 db)
                /\ Query5.lat_band r = Query5.band (Plant.latitude p)
                /\ Query5.lon_band r = Query5.band (Plant.longitude p)).
Proof.
  destruct (group_totals_skip_null db) as (H1 & H2 & H3 & H4 & H5).
  assert (P4 : Spec.total
       (map (fun r => Spec.capacity_of (Spec.of_fuel (Query1._id r)) db)
          (Query1.query1 db))
     = Spec.total (Spec.capacities db)).
  { rewrite (total_perm _ _ (Permutation_map _ (query1_rows db))).
    rewrite map_map. simpl. rewrite <- H4.
    f_equal. apply map_ext_in. intros g Hg. symmetry. exact (H1 g Hg). }
  assert (Q2 : forall g, In g (Query2.group_stage (Query2.match_stage db)) ->
            Query2.total_nuclear_capacity_mw g =
            Spec.capacity_of (Spec.nuclear_of_country (Query2._id g)) db).
  { intros g Hg. rewrite (H2 g Hg). unfold Query2.match_stage.
    rewrite filter_andb. reflexivity. }
  set (sorted := sort_desc_num Query2.total_nuclear_capacity_mw
                   (map Query2.project_stage
                      (Query2.group_stage (Query2.match_stage db)))).
  assert (Hperm : Permutation sorted
            (map Query2.project_stage (Query2.group_stage (Query2.match_stage db)))).
  { apply sort_by_perm. }
  assert (Hq : Query2.query2 db = firstn 10 sorted) by reflexivity.
  repeat apply conj.
  - intros p Hp.
    pose proof (group_by_complete String.eqb Plant.primary_fuel string_eqb_eq p db Hp)
      as Hin.
    eexists. split.
    + apply (Permutation_in _ (Permutation_sym (query1_rows db))).
      apply in_map. unfold Query1.group_stage. apply in_map_iff.
      eexists. split; [reflexivity | exact Hin].
    + reflexivity.
  - apply (Permutation_NoDup
             (Permutation_sym (Permutation_map _ (query1_rows db)))).
    unfold Query1.group_stage. rewrite !map_map. simpl.
    apply (group_by_NoDup _ _ string_eqb_eq).
  - exact H5.
  - exact P4.
  - rewrite <- P4.
    apply (total_close
             (fun r => Spec.capacity_of (Spec.of_fuel (Query1._id r)) db)
             Query1.total_capacity_mw (dec 1 20) (Query1.query1 db)).
    intros r Hr. rewrite (H5 r Hr). apply round_num_1_close.
  - rewrite <- P4.
    apply (total_close
             (fun r => Spec.capacity_of (Spec.of_fuel (Query1._id r)) db)
             Query1.total_capacity_mw (dec 1 20) (Query1.query1 db)).
    intros r Hr. rewrite (H5 r Hr). apply round_num_1_close.
  - intros r Hr. rewrite Hq in Hr.
    assert (Hr' : In r sorted).
    { rewrite <- (firstn_skipn 10 sorted). apply in_or_app. now left. }
    apply (Permutation_in _ Hperm) in Hr'. apply in_map_iff in Hr'.
    destruct Hr' as [g [<- Hg]]. simpl. now rewrite (Q2 g Hg).
  - intros p Hp Hf.
    assert (Hm : In p (Query2.match_stage db)).
    { apply filter_In. split; [exact Hp | now apply String.eqb_eq]. }
    pose proof (group_by_complete String.eqb Plant.country_long string_eqb_eq
                  p _ Hm) as Hin.
    set (g := {| Query2._id := Plant.country_long p;
                 Query2.total_nuclear_capacity_mw :=
                   Acc.sum (map Plant.capacity_mw
                     (filter (fun x => String.eqb (Plant.country_long p)
                                         (Plant.country_long x))
                        (Query2.match_stage db))) |}).
    assert (Hg : In g (Query2.group_stage (Query2.match_stage db))).
    { unfold Query2.group_stage. apply in_map_iff.
      eexists. split; [|exact Hin]. reflexivity. }
    assert (Hrow : In (Query2.project_stage g) sorted).
    { apply (Permutation_in _ (Permutation_sym Hperm)). now apply in_map. }
    rewrite <- (firstn_skipn 10 sorted) in Hrow.
    apply in_app_or in Hrow. destruct Hrow as [Hrow|Hrow].
    + left. exists (Query2.project_stage g). rewrite Hq. auto.
    + right. split.
      * rewrite Hq, length_firstn.
        assert (List.length (skipn 10 sorted) <> 0)%nat.
        { destruct (skipn 10 sorted); [contradiction | discriminate]. }
        rewrite length_skipn in H. lia.
      * intros r Hr. rewrite Hq in Hr.
        assert (Hord : ordered (Aux.desc_num Query2.total_nuclear_capacity_mw)
                         (firstn 10 sorted ++ skipn 10 sorted)).
        { rewrite firstn_skipn. apply sort_by_is_ordered. apply desc_num_total. }
        pose proof (ordered_app_split _ (desc_num_trans _) _ _ Hord
                      r (Query2.project_stage g) Hr Hrow) as Hle.
        unfold Aux.desc_num in Hle. apply Qle_bool_iff in Hle.
        change (Query2.total_nuclear_capacity_mw (Query2.project_stage g))
          with (Expr.round_num (Query2.total_nuclear_capacity_mw g) 2) in Hle.
        rewrite (Q2 g Hg) in Hle. exact Hle.
  - intros r Hr. rewrite (H3 r Hr). unfold Query5.match_stage.
    rewrite filter_andb. reflexivity.
  - intros p Hp Hf Hlat Hlon.
    assert (Hm : In p (Query5.match_stage db)).
    { apply filter_In. split; [exact Hp|].
      rewrite Hlat, Hlon, Hf. reflexivity. }
    pose proof (group_by_complete Query5.key_eqb
                  (fun d => (Query5.d_lat_band d, Query5.d_lon_band d))
                  key_eqb_eq (Query5.add_bands p) _ (in_map Query5.add_bands _ _ Hm))
      as Hin.
    eexists. split.
    + apply (Permutation_in _ (Permutation_sym (query5_rows db))).
      unfold Query5.group_stage. apply in_map_iff.
      eexists. split; [reflexivity | exact Hin].
    + simpl. auto.
Qed.

(** C5, the claim as stated fails: the gas plant and the coal plant of
    0.04 MW each give two rows with a total of 0, where the sums of the
    groups are 0.04 and the sum over the collection is 0.08. *)
Lemma rounded_totals_do_not_add_up :
  map Query1.total_capacity_mw (Query1.query1 Cases.plants_small) = [zero; zero]
  /\ Spec.capacity_of (Spec.of_fuel "Gas") Cases.plants_small = dec 4 100
  /\ Spec.capacity_of (Spec.of_fuel "Coal") Cases.plants_small = dec 4 100
  /\ Spec.total (map Query1.total_capacity_mw (Query1.query1 Cases.plants_small))
     = zero
  /\ Spec.total (Spec.capacities Cases.plants_small) = dec 8 100.
Proof. repeat apply conj; vm_compute; qc_eq. Qed.

(** Query 1 on the sample: the plant of unknown capacity adds nothing to the
    2200 MW of the nuclear group. *)
Lemma capacity_sum_sample :
  dec 2200 1 =
  Expr.round_num
    (Spec.capacity_of (Spec.of_fuel "Nuclear") Sample.plants_capacity) 1.
Proof.
  apply (proj1 (proj2 (proj2 (capacity_sum_skips_null Sample.plants_capacity)))
           {| Query1._id := "Nuclear"%string;
              Query1.number_of_plants := 3;
              Query1.total_capacity_mw := dec 2200 1 |}).
  vm_compute. left. qc_eq.
Defined.
